(** * Casino slot-machine OCR: the per-frame extraction pipeline

    A shallow embedding of [src/real_time_ocr.py] (class
    [CasinoOCRProcessor]), of the persistence call of
    [src/database_handler.py] and of the loop body of [main.py], together
    with the properties of the amount parser, of the result classifier, of
    the region-of-interest cropper and of the persistence step.

    Conventions of the embedding.
    - A Python [str] is the list of its code points ([pystr]); the regular
      expressions of the parser work on code points, and two of the three
      currency symbols are outside ASCII.
    - A Python [float] that the pipeline handles is a rational number
      ([Q]).  Confidences are finite floats, hence rationals, and are only
      compared.  Amounts come from decimal numerals with no or exactly two
      fractional digits; the float of such a numeral is the nearest
      double, this rounding is monotone, and it keeps distinct any two
      multiples of 0.01 up to 1,000,000, so comparing and equating the
      exact values decides what the floats decide
      ([parse_prize_amount_hundredths] is the fact about the patterns
      that this rests on).
    - A call that may raise returns an [outcome]; [try ... except
      Exception] catches the [Exception] class and lets the rest pass.
    - Logging and the on-screen display are left out: nothing they do
      comes back into a result or into the database. *)

From Stdlib Require Import ZArith NArith QArith Qround Lia String Ascii.
From stdpp Require Import base option list gmap.

Local Open Scope N_scope.

(** ** Python strings *)

(** A [str] as the sequence of its code points. *)
Definition pystr : Type := list N.

(** The code points of an ASCII literal. *)
Fixpoint lit (s : string) : pystr :=
  match s with
  | EmptyString => []
  | String c s' => N_of_ascii c :: lit s'
  end.

Definition DOLLAR : N := 36.    (* $ *)
Definition COMMA : N := 44.     (* , *)
Definition PERIOD : N := 46.    (* . *)
Definition POUND : N := 163.    (* U+00A3 *)
Definition EURO : N := 8364.    (* U+20AC *)

(** The code points of the digit zero of every run of ten decimal digits
    (general category Nd, Unicode 14): what [\d] matches in a [str]
    pattern and what [float] reads as a digit.  The ASCII digits are the
    run that starts at 48. *)
Definition nd_zeros : list N :=
  [48; 1632; 1776; 1984; 2406; 2534; 2662; 2790; 2918; 3046; 3174; 3302;
   3430; 3558; 3664; 3792; 3872; 4160; 4240; 6112; 6160; 6470; 6608; 6784;
   6800; 6992; 7088; 7232; 7248; 42528; 43216; 43264; 43472; 43504; 43600;
   44016; 65296; 66720; 68912; 69734; 69872; 69942; 70096; 70384; 70736;
   70864; 71248; 71360; 71472; 71904; 72016; 72784; 73040; 73120; 92768;
   92864; 93008; 120782; 120792; 120802; 120812; 120822; 123200; 123632;
   125264; 130032].

(** The decimal value of a code point, when it is a decimal digit. *)
Fixpoint digit_in (zeros : list N) (c : N) : option N :=
  match zeros with
  | [] => None
  | z :: zs => if (z <=? c) && (c <? z + 10) then Some (c - z)
               else digit_in zs c
  end.

Definition digit_value (c : N) : option N := digit_in nd_zeros c.

Definition is_digit (c : N) : bool :=
  match digit_value c with Some _ => true | None => false end.

Definition is_currency (c : N) : bool :=
  (c =? DOLLAR) || (c =? EURO) || (c =? POUND).

(** ** Regular expressions, as the [re] module runs them

    The fragment the parser's patterns are written in: character classes,
    concatenation, greedy bounded and unbounded repetition, one capturing
    group.  Matching is by backtracking, the first alternative tried being
    one more iteration of a repetition. *)

Inductive regex : Type :=
| Class (p : N -> bool)
| Seq (r1 r2 : regex)
| Repeat (r : regex) (lo : nat) (hi : option nat)
| Group (r : regex).

(** [rmatch r s cap k] matches [r] at the start of [s] and hands the rest
    of the text and the captured group to [k]; when [k] fails the matcher
    backtracks.  An unbounded repetition runs at most [length s] times,
    and an iteration must consume a character. *)
Fixpoint rmatch {A : Type} (r : regex) (s : pystr) (cap : option pystr)
    (k : pystr -> option pystr -> option A) : option A :=
  match r with
  | Class p =>
      match s with
      | c :: s' => if p c then k s' cap else None
      | [] => None
      end
  | Seq r1 r2 => rmatch r1 s cap (fun s1 cap1 => rmatch r2 s1 cap1 k)
  | Repeat r1 lo hi =>
      (fix rep (n lo : nat) (s : pystr) (cap : option pystr) {struct n}
         : option A :=
         let stop := match lo with O => k s cap | S _ => None end in
         match n with
         | O => stop
         | S n' =>
             match rmatch r1 s cap
                     (fun s1 cap1 =>
                        if (length s1 <? length s)%nat
                        then rep n' (Nat.pred lo) s1 cap1 else None) with
             | Some x => Some x
             | None => stop
             end
         end)
        (match hi with Some h => h | None => length s end) lo s cap
  | Group r1 =>
      rmatch r1 s cap
        (fun s1 _ => k s1 (Some (take (length s - length s1)%nat s)))
  end.

(** One match attempt at the start of [s]: the captured group (the empty
    string when the group took no part) and the rest of the text. *)
Definition match_here (r : regex) (s : pystr) : option (pystr * pystr) :=
  rmatch r s None (fun rest cap => Some (default [] cap, rest)).

(** [re.findall] for a pattern with one group: the group of every match,
    scanning left to right, a match starting where the previous one
    ended.  [skip] counts the characters still covered by the last
    match. *)
Fixpoint findall_from (r : regex) (skip : nat) (s : pystr) : list pystr :=
  match s with
  | [] => []
  | _ :: s' =>
      match skip with
      | S n => findall_from r n s'
      | O =>
          match match_here r s with
          | Some (g, rest) =>
              g :: findall_from r (length s - length rest - 1)%nat s'
          | None => findall_from r 0 s'
          end
      end
  end.

Definition findall (r : regex) (s : pystr) : list pystr :=
  findall_from r 0 s.

(** The texts a pattern matches, whatever the order in which the matcher
    tries them: the specification of [rmatch]. *)
Fixpoint matches (r : regex) (w : pystr) : Prop :=
  match r with
  | Class p => exists c, w = [c] /\ p c = true
  | Seq r1 r2 =>
      exists w1 w2, w = w1 ++ w2 /\ matches r1 w1 /\ matches r2 w2
  | Repeat r1 lo hi =>
      exists ws, w = concat ws /\ Forall (matches r1) ws /\
        (lo <= length ws)%nat /\
        match hi with Some h => (length ws <= h)%nat | None => True end
  | Group r1 => matches r1 w
  end.

Fixpoint has_group (r : regex) : bool :=
  match r with
  | Class _ => false
  | Seq r1 r2 => has_group r1 || has_group r2
  | Repeat r1 _ _ => has_group r1
  | Group _ => true
  end.

(** [re.sub(r'[^...]', '', text)]: every character outside the class
    [keep] is replaced by the empty string. *)
Fixpoint sub_outside (keep : N -> bool) (text : pystr) : pystr :=
  match text with
  | [] => []
  | c :: t => if keep c then c :: sub_outside keep t else sub_outside keep t
  end.

(** [s.replace(c, '')] for a one-character [c]. *)
Fixpoint replace_char (c : N) (s : pystr) : pystr :=
  match s with
  | [] => []
  | d :: t => if d =? c then replace_char c t else d :: replace_char c t
  end.

(** ** [float] on a decimal numeral *)

(** The digits of [s] read in base ten, [None] if a character is not a
    decimal digit. *)
Fixpoint digits_value (acc : N) (s : pystr) : option N :=
  match s with
  | [] => Some acc
  | c :: t =>
      match digit_value c with
      | Some d => digits_value (10 * acc + d) t
      | None => None
      end
  end.

(** The text before the first period and, if there is one, the text after
    it. *)
Fixpoint split_period (s : pystr) : pystr * option pystr :=
  match s with
  | [] => ([], None)
  | c :: t =>
      if c =? PERIOD then ([], Some t)
      else let '(a, b) := split_period t in (c :: a, b)
  end.

(** [float(s)] for a text of decimal digits and periods, which is all
    [parse_prize_amount] passes to it: digits, optionally a period and
    more digits, with a digit on at least one side.  [None] stands for
    [ValueError]. *)
Definition py_float (s : pystr) : option Q :=
  let '(ip, fp) := split_period s in
  match fp with
  | None =>
      match ip with
      | [] => None
      | _ => n ← digits_value 0 ip; Some (inject_Z (Z.of_N n))
      end
  | Some f =>
      match ip, f with
      | [], [] => None
      | _, _ =>
          n ← digits_value 0 ip;
          m ← digits_value 0 f;
          let scale := 10 ^ N.of_nat (length f) in
          Some (Qred (Qmake (Z.of_N (n * scale + m)) (Z.to_pos (Z.of_N scale))))
      end
  end.

(** ** The amount parser *)

Definition digit : regex := Class is_digit.
Definition currency : regex := Class is_currency.
Definition chr (c : N) : regex := Class (N.eqb c).
Definition opt (r : regex) : regex := Repeat r 0 (Some 1%nat).
Definition star (r : regex) : regex := Repeat r 0 None.
Definition plus (r : regex) : regex := Repeat r 1 None.
Definition times (r : regex) (lo hi : nat) : regex := Repeat r lo (Some hi).

(** [(?:\.\d{2})?] *)
Definition cents_part : regex := opt (Seq (chr PERIOD) (times digit 2 2)).

(** [\d{1,3}(?:,\d{3})*(?:\.\d{2})?] *)
Definition grouped : regex :=
  Seq (times digit 1 3)
      (Seq (star (Seq (chr COMMA) (times digit 3 3))) cents_part).

(** The list [patterns] of [parse_prize_amount], in its order. *)
Definition pattern1 : regex := Seq (opt currency) (Group grouped).
Definition pattern2 : regex := Seq (Group grouped) (opt currency).
Definition pattern3 : regex :=
  Seq (opt currency) (Group (Seq (plus digit) cents_part)).
Definition patterns : list regex := [pattern1; pattern2; pattern3].

(** The class [[\d.,$€£]] whose complement is removed from the text. *)
Definition amount_char (c : N) : bool :=
  is_digit c || (c =? PERIOD) || (c =? COMMA) || is_currency c.

Definition MIN_AMOUNT : Q := 1 # 100.
Definition MAX_AMOUNT : Q := 1000000 # 1.

(** [0.01 <= amount <= 1000000] *)
Definition in_prize_range (amount : Q) : bool :=
  Qle_bool MIN_AMOUNT amount && Qle_bool amount MAX_AMOUNT.

(** The body of the loop [for pattern in patterns] for one pattern:
    [Some a] when the iteration returns [a], [None] when the loop goes on
    (no match, a value out of range, or [ValueError]). *)
Definition try_pattern (clean_text : pystr) (pattern : regex) : option Q :=
  match findall pattern clean_text with
  | [] => None
  | m0 :: _ =>
      let amount_str := replace_char COMMA m0 in
      match py_float amount_str with
      | Some amount => if in_prize_range amount then Some amount else None
      | None => None
      end
  end.

Fixpoint first_amount (clean_text : pystr) (ps : list regex) : option Q :=
  match ps with
  | [] => None
  | p :: ps' =>
      match try_pattern clean_text p with
      | Some amount => Some amount
      | None => first_amount clean_text ps'
      end
  end.

Definition parse_prize_amount (text : pystr) : option Q :=
  let clean_text := sub_outside amount_char text in
  first_amount clean_text patterns.

(** ** Exceptions *)

(** What a call raises: an instance of [Exception] (its [str] is kept),
    or an exception outside that class such as [KeyboardInterrupt], which
    [except Exception] does not catch. *)
Inductive exn : Type :=
| Exception (msg : pystr)
| BaseException (msg : pystr).

Inductive outcome (A : Type) : Type :=
| Returns (a : A)
| Raises (e : exn).
Arguments Returns {A} a.
Arguments Raises {A} e.

#[global] Instance outcome_ret : MRet outcome := fun A a => Returns a.
#[global] Instance outcome_bind : MBind outcome := fun A B k m =>
  match m with
  | Returns a => k a
  | Raises e => Raises e
  end.

(** ** Frames *)

(** A pixel is the list of its channel values; an array of pixels has a
    shape and an accessor, and a slice of it is a view with its own shape
    onto the same pixels. *)
Definition pixel : Type := list Z.

Record ndarray : Type := {
  nrows : nat;
  ncols : nat;
  at_ : nat -> nat -> pixel
}.

(** How a slice bound [i] is adjusted to an axis of [len] elements: a
    negative bound counts from the end, and every bound is clipped to the
    axis. *)
Definition slice_index (i len : Z) : Z :=
  if (i <? 0)%Z then Z.max (i + len) 0 else Z.min i len.

(** First index and number of elements of [lo:hi] on an axis of [n]
    elements. *)
Definition slice_range (lo hi : Z) (n : nat) : nat * nat :=
  let start := slice_index lo (Z.of_nat n) in
  let stop := slice_index hi (Z.of_nat n) in
  (Z.to_nat start, Z.to_nat (stop - start)).

(** [image[y1:y2, x1:x2]] *)
Definition getitem (image : ndarray) (y1 y2 x1 x2 : Z) : ndarray :=
  let '(r0, h) := slice_range y1 y2 (nrows image) in
  let '(c0, w) := slice_range x1 x2 (ncols image) in
  {| nrows := h; ncols := w;
     at_ := fun i j => at_ image (r0 + i)%nat (c0 + j)%nat |}.

(** ** Configuration and collaborators *)

(** The two entries of [config['processing']] that the pipeline reads. *)
Record config : Type := {
  roi_coordinates : Z * Z * Z * Z;
  confidence_threshold : Q
}.

(** One line of a recognition result: the box and the pair of the text
    and its confidence, [line[1][0]] and [line[1][1]]. *)
Definition box : Type := list (Q * Q).
Definition line : Type := box * (pystr * Q).

(** What [ocr.ocr] returns: a list with one entry per image, an entry
    being [None] or a list of lines. *)
Definition ocr_result : Type := list (option (list line)).

(** The calls into OpenCV, PaddleOCR and the clock. *)
Record runtime : Type := {
  cvtColor : ndarray -> outcome ndarray;
  clahe_apply : ndarray -> outcome ndarray;
  fastNlMeansDenoising : ndarray -> outcome ndarray;
  ocr_ocr : ndarray -> outcome ocr_result;
  time_time : Q
}.

(** ** The pipeline *)

Definition extract_roi (cfg : config) (image : ndarray) : outcome ndarray :=
  let '(x1, y1, x2, y2) := roi_coordinates cfg in
  Returns (getitem image y1 y2 x1 x2).

Definition preprocess_image (rt : runtime) (image : ndarray)
    : outcome ndarray :=
  gray ← cvtColor rt image;
  enhanced ← clahe_apply rt gray;
  denoised ← fastNlMeansDenoising rt enhanced;
  Returns denoised.

Record raw_entry : Type := {
  entry_text : pystr;
  entry_confidence : Q
}.

(** The dictionary [extracted_data], which is also the result. *)
Record extraction : Type := {
  machine_id : pystr;
  timestamp : Q;
  prize_amount : option Q;
  confidence : Q;
  raw_text : list raw_entry;
  status : pystr
}.

(** [x > y] on confidences. *)
Definition Qgt_bool (x y : Q) : bool := negb (Qle_bool x y).

(** The truth value of an optional float: [None] and [0.0] are false. *)
Definition truthy (a : option Q) : bool :=
  match a with
  | Some x => negb (Qeq_bool x 0)
  | None => false
  end.

Definition is_None {A : Type} (a : option A) : bool :=
  match a with Some _ => false | None => true end.

(** The body of [for line in result[0]]. *)
Definition scan_line (cfg : config) (d : extraction) (ln : line)
    : extraction :=
  let text := fst (snd ln) in
  let conf := snd (snd ln) in
  let raw := raw_text d ++ [{| entry_text := text; entry_confidence := conf |}] in
  let keep :=
    {| machine_id := machine_id d; timestamp := timestamp d;
       prize_amount := prize_amount d; confidence := confidence d;
       raw_text := raw; status := status d |} in
  if Qle_bool (confidence_threshold cfg) conf then
    let prize := parse_prize_amount text in
    if truthy prize
       && (is_None (prize_amount d) || Qgt_bool conf (confidence d))
    then {| machine_id := machine_id d; timestamp := timestamp d;
            prize_amount := prize; confidence := conf;
            raw_text := raw; status := status d |}
    else keep
  else keep.

(** The lines the loop runs over: [result[0]] when [result and result[0]]
    holds, none otherwise. *)
Definition lines_of (result : ocr_result) : list line :=
  match result with
  | Some (l :: ls) :: _ => l :: ls
  | _ => []
  end.

Definition initial_data (rt : runtime) (mid : pystr) : extraction :=
  {| machine_id := mid; timestamp := time_time rt; prize_amount := None;
     confidence := 0; raw_text := []; status := lit "processing" |}.

(** [# Update status] *)
Definition update_status (d : extraction) : extraction :=
  {| machine_id := machine_id d; timestamp := timestamp d;
     prize_amount := prize_amount d; confidence := confidence d;
     raw_text := raw_text d;
     status := if is_None (prize_amount d) then lit "no_prize_found"
               else lit "success" |}.

(** The [try] block of [process_frame]. *)
Definition process_frame_try (rt : runtime) (cfg : config)
    (frame : ndarray) (mid : pystr) : outcome extraction :=
  roi_image ← extract_roi cfg frame;
  processed_image ← preprocess_image rt roi_image;
  result ← ocr_ocr rt processed_image;
  let extracted_data :=
    foldl (scan_line cfg) (initial_data rt mid) (lines_of result) in
  Returns (update_status extracted_data).

(** The dictionary built in the [except] block. *)
Definition error_data (rt : runtime) (mid : pystr) (msg : pystr)
    : extraction :=
  {| machine_id := mid; timestamp := time_time rt; prize_amount := None;
     confidence := 0; raw_text := [];
     status := lit "error: " ++ msg |}.

Definition process_frame (rt : runtime) (cfg : config) (frame : ndarray)
    (mid : pystr) : outcome extraction :=
  match process_frame_try rt cfg frame mid with
  | Returns d => Returns d
  | Raises (Exception msg) => Returns (error_data rt mid msg)
  | Raises e => Raises e
  end.

(** ** Persistence *)

(** A row of [slot_machine_prizes], without its key. *)
Record prize_row : Type := {
  row_prize_amount : Q;
  row_confidence : Q;
  row_detected_at : Q;
  row_updated_at : option Q
}.

(** The arguments of one call of [update_prize]. *)
Record upsert : Type := {
  up_machine_id : pystr;
  up_prize_amount : Q;
  up_confidence : Q;
  up_timestamp : Q
}.

(** The database as the pipeline sees it: the table keyed by machine
    identifier, the calls of [update_prize] made so far, the server's
    [CURRENT_TIMESTAMP], and the error the driver raises on the next
    statement, if any. *)
Record database : Type := {
  table : gmap pystr prize_row;
  upserts : list upsert;
  current_timestamp : Q;
  fault : option exn
}.

(** [INSERT ... ON CONFLICT (machine_id) DO UPDATE SET ...]: a new row
    gets the three columns and no [updated_at] of its own (the statement
    does not set it), an existing row gets the three columns overwritten
    and [updated_at] set to [now]. *)
Definition execute_upsert (now : Q) (u : upsert)
    (t : gmap pystr prize_row) : gmap pystr prize_row :=
  match t !! up_machine_id u with
  | None =>
      <[up_machine_id u :=
          {| row_prize_amount := up_prize_amount u;
             row_confidence := up_confidence u;
             row_detected_at := up_timestamp u;
             row_updated_at := None |}]> t
  | Some _ =>
      <[up_machine_id u :=
          {| row_prize_amount := up_prize_amount u;
             row_confidence := up_confidence u;
             row_detected_at := up_timestamp u;
             row_updated_at := Some now |}]> t
  end.

(** [DatabaseHandler.update_prize]: the call is recorded; the statement
    is executed and committed unless the driver raises. *)
Definition update_prize (db : database) (u : upsert)
    : database * outcome unit :=
  let called :=
    {| table := table db; upserts := upserts db ++ [u];
       current_timestamp := current_timestamp db; fault := fault db |} in
  match fault db with
  | Some e => (called, Raises e)
  | None =>
      ({| table := execute_upsert (current_timestamp db) u (table db);
          upserts := upserts db ++ [u];
          current_timestamp := current_timestamp db; fault := fault db |},
       Returns ())
  end.

Definition SUCCESS : pystr := lit "success".

(** [CasinoOCRProcessor.update_database] *)
Definition update_database (db : database) (result : extraction)
    : database * outcome unit :=
  if bool_decide (status result = SUCCESS) then
    match prize_amount result with
    | Some amount =>
        match update_prize db
                {| up_machine_id := machine_id result;
                   up_prize_amount := amount;
                   up_confidence := confidence result;
                   up_timestamp := timestamp result |} with
        | (db', Raises (Exception _)) => (db', Returns ())
        | r => r
        end
    | None => (db, Returns ())
    end
  else (db, Returns ()).

(** The counters of [main] and the database. *)
Record run : Type := {
  frame_count : nat;
  success_count : nat;
  store : database
}.

(** Lines 46 to 48 of [main]: [# Update database if successful]. *)
Definition record_result (r : run) (result : extraction)
    : run * outcome unit :=
  if bool_decide (status result = SUCCESS) then
    let '(db', o) := update_database (store r) result in
    ({| frame_count := frame_count r;
        success_count := S (success_count r);
        store := db' |}, o)
  else (r, Returns ()).

(** One iteration of the loop of [main] once a frame has been read:
    process it, count it, record the result. *)
Definition main_iteration (rt : runtime) (cfg : config) (mid : pystr)
    (r : run) (frame : ndarray) : run * outcome extraction :=
  match process_frame rt cfg frame mid with
  | Raises e => (r, Raises e)
  | Returns result =>
      let counted :=
        {| frame_count := S (frame_count r);
           success_count := success_count r; store := store r |} in
      match record_result counted result with
      | (r', Returns _) => (r', Returns result)
      | (r', Raises e) => (r', Raises e)
      end
  end.

(** ** Formatting an amount *)

(** The decimal digits of [n], most significant first. *)
Fixpoint digits_of (fuel : nat) (n : N) (acc : pystr) : pystr :=
  match fuel with
  | O => acc
  | S f =>
      let acc' := (48 + n mod 10) :: acc in
      if n <? 10 then acc' else digits_of f (n / 10) acc'
  end.

Definition str_of_N (n : N) : pystr := digits_of (S (N.to_nat (N.log2 n))) n [].

(** [f"{amount:.2f}"] as [main] renders a prize amount, on a non-negative
    amount: the integer part, a period and two fractional digits.  The
    amount is rounded to the nearest hundredth, which changes nothing on
    the multiples of 0.01 that the parser returns. *)
Definition format_2f (amount : Q) : pystr :=
  let cents := Z.to_N (Qfloor (amount * 100 + (1 # 2))) in
  str_of_N (cents / 100) ++ [PERIOD] ++
  [48 + (cents mod 100) / 10; 48 + cents mod 10].

(** ** The Result Classifier, in the words of the specification *)

(** Best amount and best confidence after one more detection: a detection
    below the threshold is skipped; otherwise its text is parsed and, if
    that yields an amount and the current best is empty or the
    detection's confidence is strictly greater than the best confidence,
    the detection's amount and confidence replace the best ones. *)
Definition classifier_step (threshold : Q) (best : option Q * Q)
    (detection : pystr * Q) : option Q * Q :=
  let '(text, conf) := detection in
  if Qgt_bool threshold conf then best
  else
    match parse_prize_amount text with
    | Some amount =>
        match fst best with
        | None => (Some amount, conf)
        | Some _ =>
            if Qgt_bool conf (snd best) then (Some amount, conf) else best
        end
    | None => best
    end.

(** Best amount empty and best confidence 0 at first, then the detections
    in emission order. *)
Definition classifier (threshold : Q) (detections : list (pystr * Q))
    : option Q * Q :=
  foldl (classifier_step threshold) (None, 0%Q) detections.

(** The stages before the scan: crop, normalise, recognise. *)
Definition recognise (rt : runtime) (cfg : config) (frame : ndarray)
    : outcome ocr_result :=
  roi_image ← extract_roi cfg frame;
  processed_image ← preprocess_image rt roi_image;
  ocr_ocr rt processed_image.

(** The detections of a recognition result, in emission order. *)
Definition detections (result : ocr_result) : list (pystr * Q) :=
  snd <$> lines_of result.

(** A stage of the pipeline raises [e] on [frame]: the cropper, or one of
    the three steps of the normaliser on what the previous step returned,
    or the recognizer on the normalised image.  (The parser has no
    raising path on a [str].) *)
Inductive stage_raises (rt : runtime) (cfg : config) (frame : ndarray)
    (e : exn) : Prop :=
| crop_raises :
    extract_roi cfg frame = Raises e -> stage_raises rt cfg frame e
| gray_raises roi :
    extract_roi cfg frame = Returns roi ->
    cvtColor rt roi = Raises e -> stage_raises rt cfg frame e
| clahe_raises roi gray :
    extract_roi cfg frame = Returns roi ->
    cvtColor rt roi = Returns gray ->
    clahe_apply rt gray = Raises e -> stage_raises rt cfg frame e
| denoise_raises roi gray enhanced :
    extract_roi cfg frame = Returns roi ->
    cvtColor rt roi = Returns gray ->
    clahe_apply rt gray = Returns enhanced ->
    fastNlMeansDenoising rt enhanced = Raises e ->
    stage_raises rt cfg frame e
| ocr_raises roi processed :
    extract_roi cfg frame = Returns roi ->
    preprocess_image rt roi = Returns processed ->
    ocr_ocr rt processed = Raises e -> stage_raises rt cfg frame e.

(** A rectangle of pixel coordinates that lies within the frame. *)
Definition within_frame (cfg : config) (frame : ndarray) : Prop :=
  let '(x1, y1, x2, y2) := roi_coordinates cfg in
  (0 <= x1 <= x2)%Z /\ (x2 <= Z.of_nat (ncols frame))%Z /\
  (0 <= y1 <= y2)%Z /\ (y2 <= Z.of_nat (nrows frame))%Z.

(** The invariant of the scan behind the returned confidence: a best
    amount was produced by one of the lines seen, whose confidence is the
    best confidence and reaches the threshold. *)
Definition best_from (cfg : config) (seen : list line) (d : extraction)
    : Prop :=
  forall a, prize_amount d = Some a ->
    exists ln, ln ∈ seen /\
      parse_prize_amount (fst (snd ln)) = Some a /\
      confidence d = snd (snd ln) /\
      Qle_bool (confidence_threshold cfg) (snd (snd ln)) = true.

(** A decimal numeral with no or two fractional digits: what is left of
    a match of the patterns once the commas are removed. *)
Definition numeral (s : pystr) : Prop :=
  exists ds fr,
    s = ds ++ fr /\ ds <> [] /\ Forall (fun c => is_digit c = true) ds /\
    (fr = [] \/
     exists d1 d2, fr = [PERIOD; d1; d2] /\
       is_digit d1 = true /\ is_digit d2 = true).

(** ** Concrete inputs *)

(** A frame of [h] rows and [w] columns whose pixel at row [i], column [j]
    is [[i; j; 0]]. *)
Definition test_frame (h w : nat) : ndarray :=
  {| nrows := h; ncols := w;
     at_ := fun i j => [Z.of_nat i; Z.of_nat j; 0%Z] |}.

Definition test_config (roi : Z * Z * Z * Z) : config :=
  {| roi_coordinates := roi; confidence_threshold := 9 # 10 |}.

(** Collaborators that never raise: the image steps return their input,
    the recognizer returns [lines] for the one image. *)
Definition quiet_runtime (lines : list line) : runtime :=
  {| cvtColor := Returns; clahe_apply := Returns;
     fastNlMeansDenoising := Returns;
     ocr_ocr := fun _ => Returns [Some lines];
     time_time := 1700000000 # 1 |}.

(** Collaborators whose grey-scale conversion raises [e]. *)
Definition failing_runtime (e : exn) : runtime :=
  {| cvtColor := fun _ => Raises e; clahe_apply := Returns;
     fastNlMeansDenoising := Returns;
     ocr_ocr := fun _ => Returns [];
     time_time := 1700000000 # 1 |}.

Definition tie_lines : list line :=
  [([], (lit "$10.00", 9 # 10)); ([], (lit "$20.00", 9 # 10))].

Definition empty_database : database :=
  {| table := ∅; upserts := []; current_timestamp := 1700000001 # 1;
     fault := None |}.

Definition fresh_run : run :=
  {| frame_count := 0; success_count := 0; store := empty_database |}.

(** ** The loop of [main] *)

(** What the outside world gives to one pass of the loop: the frame that
    [cap.read()] delivers ([None] when [ret] is false), the behaviour of
    the collaborators and of the clock during the pass, the database
    server's clock and the error its driver raises, if any, the
    exception that the drawing calls of the display raise, if any, and
    the key code that [cv2.waitKey(1)] returns. *)
Record tick : Type := {
  tick_frame : option ndarray;
  tick_runtime : runtime;
  tick_clock : Q;
  tick_fault : option exn;
  tick_display : option exn;
  tick_key : Z
}.

(** How the loop ends: the frame source fails, the operator presses [q],
    or an exception leaves the loop. *)
Inductive ending : Type :=
| SourceFailed
| QuitKey
| Raised (e : exn).

(** The database as the server presents it during a pass. *)
Definition at_tick (t : tick) (db : database) : database :=
  {| table := table db; upserts := upserts db;
     current_timestamp := tick_clock t; fault := tick_fault t |}.

(** [cv2.waitKey(1) & 0xFF == ord('q')] *)
Definition quit_key (key : Z) : bool := (Z.land key 255 =? 113)%Z.

(** [while True] in [main], on the passes the world has in store; a
    source with nothing more to deliver fails to read.  Of the display,
    which runs unless [headless], the loop sees an exception it raises
    and the key it reads. *)
Fixpoint main_loop (cfg : config) (mid : pystr) (headless : bool)
    (ticks : list tick) (r : run) : run * ending :=
  match ticks with
  | [] => (r, SourceFailed)
  | t :: ts =>
      match tick_frame t with
      | None => (r, SourceFailed)
      | Some frame =>
          let r0 :=
            {| frame_count := frame_count r;
               success_count := success_count r;
               store := at_tick t (store r) |} in
          match main_iteration (tick_runtime t) cfg mid r0 frame with
          | (r', Raises e) => (r', Raised e)
          | (r', Returns _) =>
              if headless then main_loop cfg mid headless ts r'
              else
                match tick_display t with
                | Some e => (r', Raised e)
                | None =>
                    if quit_key (tick_key t) then (r', QuitKey)
                    else main_loop cfg mid headless ts r'
                end
          end
      end
  end.

(** [success_count / frame_count if frame_count > 0 else 0] *)
Definition accuracy (r : run) : Q :=
  if (0 <? frame_count r)%nat
  then Z.of_nat (success_count r) # Pos.of_nat (frame_count r)
  else 0.

(** ** Notions for the properties beyond the specification *)

(** A line takes part in the choice of the best amount: its confidence
    reaches the threshold and its text parses. *)
Definition eligible (cfg : config) (ln : line) : bool :=
  Qle_bool (confidence_threshold cfg) (snd (snd ln)) &&
  negb (is_None (parse_prize_amount (fst (snd ln)))).

(** The invariant of the scan: with no eligible line seen there is no
    best amount; otherwise the best amount and confidence are those of
    an eligible line that no eligible line exceeds in confidence and no
    earlier eligible line equals. *)
Definition first_best (cfg : config) (seen : list line) (d : extraction)
    : Prop :=
  match prize_amount d with
  | None => forall ln, ln ∈ seen -> eligible cfg ln = false
  | Some a =>
      exists i ln,
        seen !! i = Some ln /\ eligible cfg ln = true /\
        parse_prize_amount (fst (snd ln)) = Some a /\
        confidence d = snd (snd ln) /\
        (forall j lj, seen !! j = Some lj -> eligible cfg lj = true ->
           (snd (snd lj) <= snd (snd ln))%Q) /\
        (forall j lj, (j < i)%nat -> seen !! j = Some lj ->
           eligible cfg lj = true -> (snd (snd lj) < snd (snd ln))%Q)
  end.

(** The entry of [raw_text] that a line leaves. *)
Definition entry_of (ln : line) : raw_entry :=
  {| entry_text := fst (snd ln); entry_confidence := snd (snd ln) |}.

(** A text has a decimal digit. *)
Definition has_digit (s : pystr) : Prop :=
  exists c, c ∈ s /\ is_digit c = true.

(** A row as one call of [update_prize] writes it. *)
Definition row_of (u : upsert) (updated : option Q) : prize_row :=
  {| row_prize_amount := up_prize_amount u;
     row_confidence := up_confidence u;
     row_detected_at := up_timestamp u;
     row_updated_at := updated |}.

(** The call of [update_prize] that a result leads to. *)
Definition upsert_of (d : extraction) (amount : Q) : upsert :=
  {| up_machine_id := machine_id d; up_prize_amount := amount;
     up_confidence := confidence d; up_timestamp := timestamp d |}.

(** A database whose driver raises [e] on every statement. *)
Definition faulty_database (e : exn) : database :=
  {| table := ∅; upserts := []; current_timestamp := 1700000001 # 1;
     fault := Some e |}.

Definition success_data : extraction :=
  {| machine_id := lit "SLOT-1"; timestamp := 1700000000 # 1;
     prize_amount := Some 500%Q; confidence := 97 # 100;
     raw_text := []; status := SUCCESS |}.

Definition prize_lines : list line :=
  [([], (lit "BONUS", 99 # 100)); ([], (lit "$50.00", 95 # 100));
   ([], (lit "$75.00", 99 # 100)); ([], (lit "$80.00", 99 # 100));
   ([], (lit "$90.00", 5 # 10))].

Definition quiet_tick (lines : list line) (key : Z) : tick :=
  {| tick_frame := Some (test_frame 2 2);
     tick_runtime := quiet_runtime lines;
     tick_clock := 1700000001 # 1; tick_fault := None;
     tick_display := None; tick_key := key |}.

(** A pass on which nothing stops the loop: the source delivers a frame,
    no stage and no database call raises outside the [Exception] class,
    and, when the display runs, it does not raise and the key read is
    not [q]. *)
Definition calm (cfg : config) (headless : bool) (t : tick) : Prop :=
  is_Some (tick_frame t) /\
  (forall frame msg,
     recognise (tick_runtime t) cfg frame <> Raises (BaseException msg)) /\
  (forall msg, tick_fault t <> Some (BaseException msg)) /\
  (headless = true \/
   (tick_display t = None /\ quit_key (tick_key t) = false)).

(** Three passes: a prize of 75.00, a grey-scale conversion that fails,
    and a frame without prize. *)
Definition three_ticks : list tick :=
  [quiet_tick prize_lines (-1);
   {| tick_frame := Some (test_frame 2 2);
      tick_runtime := failing_runtime (Exception (lit "empty image"));
      tick_clock := 1700000002 # 1; tick_fault := None;
      tick_display := None; tick_key := (-1)%Z |};
   quiet_tick [([], (lit "JACKPOT", 99 # 100))] (-1)].

(** The state in which the loop leaves the counters and the database of
    a fresh run after these three passes. *)
Definition three_ticks_end : run :=
  {| frame_count := 3; success_count := 1;
     store :=
       {| table := {[ lit "SLOT-1" :=
                       {| row_prize_amount := 75;
                          row_confidence := 99 # 100;
                          row_detected_at := 1700000000 # 1;
                          row_updated_at := None |} ]};
          upserts :=
            [{| up_machine_id := lit "SLOT-1"; up_prize_amount := 75;
                up_confidence := 99 # 100;
                up_timestamp := 1700000000 # 1 |}];
          current_timestamp := 1700000001 # 1; fault := None |} |}.

(** The check that the decimal numeral of [n] has one to three digits
    and reads back as [n]. *)
Definition small_numeral_ok (n : N) : bool :=
  forallb is_digit (str_of_N n) &&
  (1 <=? length (str_of_N n))%nat && (length (str_of_N n) <=? 3)%nat &&
  match digits_value 0 (str_of_N n) with
  | Some m => m =? n
  | None => false
  end.

(** ** Properties of the amount parser *)

Lemma try_pattern_in_range clean_text p a :
  try_pattern clean_text p = Some a -> in_prize_range a = true.
Proof.
  unfold try_pattern.
  destruct (findall p clean_text) as [|m0 ms]; [discriminate|].
  destruct (py_float (replace_char COMMA m0)) as [amount|]; [|discriminate].
  destruct (in_prize_range amount) eqn:Hr; [|discriminate].
  intros [= <-]. exact Hr.
Qed.

Lemma first_amount_in_range clean_text ps a :
  first_amount clean_text ps = Some a -> in_prize_range a = true.
Proof.
  induction ps as [|p ps IH]; simpl; [discriminate|].
  destruct (try_pattern clean_text p) as [b|] eqn:Hp.
  - intros [= <-]. eapply try_pattern_in_range, Hp.
  - exact IH.
Qed.

(** An amount the parser returns lies between 0.01 and 1,000,000. *)
Lemma parse_prize_amount_in_range text a :
  parse_prize_amount text = Some a -> in_prize_range a = true.
Proof. apply first_amount_in_range. Qed.

Lemma in_prize_range_truthy a :
  in_prize_range a = true -> truthy (Some a) = true.
Proof.
  unfold in_prize_range, truthy. intros H.
  apply andb_true_iff in H as [Hlo _]. apply Qle_bool_iff in Hlo.
  destruct (Qeq_bool a 0) eqn:E; [|reflexivity].
  apply Qeq_bool_eq in E. rewrite E in Hlo.
  exfalso. apply Hlo. reflexivity.
Qed.

(** What the parser returns is true as a condition: it is never [0.0]. *)
Lemma parse_prize_amount_truthy text :
  truthy (parse_prize_amount text) = negb (is_None (parse_prize_amount text)).
Proof.
  destruct (parse_prize_amount text) as [a|] eqn:H; [|reflexivity].
  simpl. apply (in_prize_range_truthy a), (parse_prize_amount_in_range text a H).
Qed.

(** The amount returned is the parsed first match of one of the three
    patterns, and the patterns before it had no match or a first match
    out of range. *)
Lemma first_amount_source clean_text ps a :
  first_amount clean_text ps = Some a ->
  exists before p after,
    ps = before ++ p :: after /\
    try_pattern clean_text p = Some a /\
    Forall (fun q => try_pattern clean_text q = None) before.
Proof.
  induction ps as [|p ps IH]; simpl; [discriminate|].
  destruct (try_pattern clean_text p) as [b|] eqn:Hp.
  - intros [= <-]. exists [], p, ps. repeat split; [exact Hp|constructor].
  - intros H. destruct (IH H) as (before & q & after & -> & Hq & Hb).
    exists (p :: before), q, after. repeat split; [exact Hq|].
    constructor; [exact Hp|exact Hb].
Qed.

(** ** The matcher against its specification *)

(** A match found by [rmatch] is a prefix of the text that the pattern
    matches; the continuation runs on the rest, with the group unchanged
    when the pattern has none, and with the match as the group when the
    pattern is a group. *)
Lemma rmatch_sound {A : Type} (r : regex) :
  forall s cap (k : pystr -> option pystr -> option A) x,
    rmatch r s cap k = Some x ->
    exists w rest cap',
      s = w ++ rest /\ matches r w /\ k rest cap' = Some x /\
      (has_group r = false -> cap' = cap) /\
      (forall r1, r = Group r1 -> cap' = Some w).
Proof.
  induction r as [p|r1 IH1 r2 IH2|r1 IH1 lo hi|r1 IH1]; intros s cap k x.
  - simpl. destruct s as [|c s']; [discriminate|].
    destruct (p c) eqn:Hp; [|discriminate]. intros Hk.
    exists [c], s', cap.
    split; [reflexivity|]. split; [exists c; auto|].
    split; [exact Hk|]. split; [reflexivity|discriminate].
  - simpl. intros H.
    destruct (IH1 _ _ _ _ H) as (w1 & s1 & cap1 & -> & Hm1 & H1 & Hc1 & _).
    destruct (IH2 _ _ _ _ H1) as (w2 & s2 & cap2 & -> & Hm2 & H2 & Hc2 & _).
    exists (w1 ++ w2), s2, cap2.
    split; [apply app_assoc|]. split; [exists w1, w2; auto|].
    split; [exact H2|]. split; [|discriminate].
    intros Hg. apply orb_false_iff in Hg as [Hg1 Hg2].
    rewrite (Hc2 Hg2). apply Hc1, Hg1.
  - simpl.
    remember (match hi with Some h => h | None => length s end) as n eqn:Hn.
    intros H.
    assert (Hrep : exists ws rest cap',
              s = concat ws ++ rest /\ Forall (matches r1) ws /\
              (lo <= length ws)%nat /\ (length ws <= n)%nat /\
              k rest cap' = Some x /\
              (has_group r1 = false -> cap' = cap)).
    { clear Hn. revert lo s cap H.
      induction n as [|n IHn]; intros lo s cap H.
      - destruct lo; [|discriminate].
        exists [], s, cap. repeat split; auto.
      - assert (Hstop : match lo with O => k s cap | S _ => None end = Some x ->
                  exists ws rest cap',
                    s = concat ws ++ rest /\ Forall (matches r1) ws /\
                    (lo <= length ws)%nat /\ (length ws <= S n)%nat /\
                    k rest cap' = Some x /\
                    (has_group r1 = false -> cap' = cap)).
        { destruct lo; [|discriminate]. intros Hk.
          exists [], s, cap. repeat split; auto. simpl. lia. }
        match type of H with
        | match ?m with _ => _ end = _ => destruct m as [y|] eqn:Hm
        end; [|exact (Hstop H)].
        injection H as ->.
        destruct (IH1 _ _ _ _ Hm) as (w & s1 & cap1 & -> & Hw & Hk & Hc & _).
        destruct (length s1 <? length (w ++ s1))%nat; [|discriminate].
        destruct (IHn _ _ _ Hk)
          as (ws & rest & cap' & -> & Hws & Hlo & Hhi & Hk' & Hc').
        exists (w :: ws), rest, cap'. simpl.
        split; [apply app_assoc|]. split; [constructor; assumption|].
        split; [lia|]. split; [lia|]. split; [exact Hk'|].
        intros Hg. rewrite (Hc' Hg). apply Hc, Hg. }
    destruct Hrep as (ws & rest & cap' & -> & Hws & Hlo & Hhi & Hk & Hc).
    exists (concat ws), rest, cap'.
    split; [reflexivity|]. split; [|split; [exact Hk|split; [exact Hc|discriminate]]].
    exists ws. split; [reflexivity|]. split; [exact Hws|]. split; [exact Hlo|].
    destruct hi as [h|]; [|exact I].
    rewrite <- Hn. exact Hhi.
  - simpl. intros H.
    destruct (IH1 _ _ _ _ H) as (w & rest & cap1 & -> & Hw & Hk & _).
    exists w, rest, (Some w).
    split; [reflexivity|]. split; [exact Hw|]. split.
    + rewrite length_app in Hk.
      replace (length w + length rest - length rest)%nat with (length w)
        in Hk by lia.
      rewrite take_app_length in Hk. exact Hk.
    + split; [discriminate|reflexivity].
Qed.

Lemma rmatch_seq {A : Type} r1 r2 s cap
    (k : pystr -> option pystr -> option A) :
  rmatch (Seq r1 r2) s cap k =
  rmatch r1 s cap (fun s1 cap1 => rmatch r2 s1 cap1 k).
Proof. reflexivity. Qed.

(** Every group that [findall] lists was captured by a match attempt. *)
Lemma findall_from_matched r g : forall s skip,
  g ∈ findall_from r skip s ->
  exists s' rest, match_here r s' = Some (g, rest).
Proof.
  induction s as [|c s IH]; intros skip H; simpl in H.
  - apply elem_of_nil in H. contradiction.
  - destruct skip as [|n]; [|exact (IH _ H)].
    destruct (match_here r (c :: s)) as [[g0 rest]|] eqn:Hm;
      [|exact (IH _ H)].
    apply elem_of_cons in H as [->|H]; [|exact (IH _ H)].
    exists (c :: s), rest. exact Hm.
Qed.

Lemma is_digit_not_separator c :
  is_digit c = true -> (c =? COMMA) = false /\ (c =? PERIOD) = false.
Proof.
  intros H. split; apply N.eqb_neq; intros ->; vm_compute in H; discriminate.
Qed.

Lemma replace_char_app c a b :
  replace_char c (a ++ b) = replace_char c a ++ replace_char c b.
Proof.
  induction a as [|d a IH]; simpl; [reflexivity|].
  destruct (d =? c); rewrite IH; reflexivity.
Qed.

Lemma replace_comma_digits ds :
  Forall (fun c => is_digit c = true) ds -> replace_char COMMA ds = ds.
Proof.
  induction 1 as [|d ds Hd _ IH]; simpl; [reflexivity|].
  destruct (is_digit_not_separator d Hd) as [-> _]. rewrite IH. reflexivity.
Qed.

(** A repetition of a character class matches characters of the class. *)
Lemma matches_repeat_class p lo hi w :
  matches (Repeat (Class p) lo hi) w ->
  Forall (fun c => p c = true) w /\ (lo <= length w)%nat /\
  match hi with Some h => (length w <= h)%nat | None => True end.
Proof.
  simpl. intros (ws & -> & Hws & Hlo & Hhi).
  assert (H : Forall (fun c => p c = true) (concat ws) /\
              length (concat ws) = length ws).
  { clear Hlo Hhi. induction Hws as [|w ws (c & -> & Hc) _ [IH1 IH2]]; simpl.
    - split; [constructor|reflexivity].
    - split; [constructor; assumption|]. rewrite IH2. reflexivity. }
  destruct H as [H ->]. auto.
Qed.

Lemma matches_cents_part w :
  matches cents_part w ->
  w = [] \/
  exists d1 d2, w = [PERIOD; d1; d2] /\
    is_digit d1 = true /\ is_digit d2 = true.
Proof.
  unfold cents_part, opt. intros (ws & -> & Hws & _ & Hhi).
  destruct ws as [|w1 [|w2 ws]]; simpl in Hhi; [left; reflexivity| |lia].
  right. apply Forall_cons in Hws as [(a & b & -> & Ha & Hb) _].
  destruct Ha as (c & -> & Hc). apply N.eqb_eq in Hc. subst c.
  apply matches_repeat_class in Hb as (Hd & Hlo & Hhi').
  destruct b as [|d1 [|d2 [|d3 b]]]; simpl in Hlo, Hhi'; try lia.
  apply Forall_cons in Hd as [Hd1 Hd]. apply Forall_cons in Hd as [Hd2 _].
  exists d1, d2. simpl. auto.
Qed.

Lemma numeral_intro ds fr :
  ds <> [] -> Forall (fun c => is_digit c = true) ds ->
  (fr = [] \/
   exists d1 d2, fr = [PERIOD; d1; d2] /\
     is_digit d1 = true /\ is_digit d2 = true) ->
  numeral (replace_char COMMA (ds ++ fr)).
Proof.
  intros Hne Hds Hfr. exists ds, fr.
  split; [|auto]. rewrite replace_char_app, (replace_comma_digits ds Hds).
  f_equal. destruct Hfr as [->|(d1 & d2 & -> & H1 & H2)]; [reflexivity|].
  simpl. destruct (is_digit_not_separator d1 H1) as [-> _].
  destruct (is_digit_not_separator d2 H2) as [-> _]. reflexivity.
Qed.

(** The groups of comma and three digits leave digits once the commas are
    removed. *)
Lemma matches_comma_groups w :
  matches (star (Seq (chr COMMA) (times digit 3 3))) w ->
  Forall (fun c => is_digit c = true) (replace_char COMMA w).
Proof.
  unfold star. intros (ws & -> & Hws & _).
  induction Hws as [|w ws Hw _ IH]; simpl; [constructor|].
  rewrite replace_char_app. apply Forall_app. split; [|exact IH].
  destruct Hw as (a & b & -> & (c & -> & Hc) & Hb).
  apply N.eqb_eq in Hc. subst c.
  apply matches_repeat_class in Hb as (Hd & _). simpl.
  rewrite (replace_comma_digits b Hd). exact Hd.
Qed.

Lemma matches_grouped_numeral w :
  matches grouped w -> numeral (replace_char COMMA w).
Proof.
  intros (a & bc & -> & Ha & b & c & -> & Hb & Hc).
  apply matches_repeat_class in Ha as (Hda & Hlo & _).
  apply matches_comma_groups in Hb. apply matches_cents_part in Hc.
  rewrite app_assoc.
  assert (Hn : numeral (replace_char COMMA
                          ((a ++ replace_char COMMA b) ++ c))).
  { apply numeral_intro; [|apply Forall_app; auto|exact Hc].
    destruct a; [simpl in Hlo; lia|discriminate]. }
  rewrite !replace_char_app in Hn |- *.
  rewrite (replace_comma_digits _ Hb) in Hn. exact Hn.
Qed.

Lemma matches_plain_numeral w :
  matches (Seq (plus digit) cents_part) w -> numeral (replace_char COMMA w).
Proof.
  intros (a & c & -> & Ha & Hc).
  apply matches_repeat_class in Ha as (Hda & Hlo & _).
  apply matches_cents_part in Hc.
  apply numeral_intro; [|exact Hda|exact Hc].
  destruct a; [simpl in Hlo; lia|discriminate].
Qed.

(** The group of a match of any of the three patterns is, once the
    commas are removed, a decimal numeral with no or two fractional
    digits. *)
Lemma match_here_numeral p s g rest :
  p ∈ patterns -> match_here p s = Some (g, rest) ->
  numeral (replace_char COMMA g).
Proof.
  unfold patterns, match_here. intros Hp H.
  apply elem_of_cons in Hp as [->|Hp];
    [|apply elem_of_cons in Hp as [->|Hp];
      [|apply list_elem_of_singleton in Hp as ->]].
  - unfold pattern1 in H. rewrite rmatch_seq in H.
    apply (rmatch_sound (opt currency)) in H
      as (w0 & s1 & cap1 & _ & _ & H & _).
    apply (rmatch_sound (Group grouped)) in H
      as (w & s2 & cap2 & _ & Hw & H & _ & Hcap).
    rewrite (Hcap _ eq_refl) in H. injection H as <- _.
    apply matches_grouped_numeral, Hw.
  - unfold pattern2 in H. rewrite rmatch_seq in H.
    apply (rmatch_sound (Group grouped)) in H
      as (w & s1 & cap1 & _ & Hw & H & _ & Hcap).
    apply (rmatch_sound (opt currency)) in H
      as (w0 & s2 & cap2 & _ & _ & H & Hsame & _).
    rewrite (Hsame eq_refl), (Hcap _ eq_refl) in H. injection H as <- _.
    apply matches_grouped_numeral, Hw.
  - unfold pattern3 in H. rewrite rmatch_seq in H.
    apply (rmatch_sound (opt currency)) in H
      as (w0 & s1 & cap1 & _ & _ & H & _).
    apply (rmatch_sound (Group (Seq (plus digit) cents_part))) in H
      as (w & s2 & cap2 & _ & Hw & H & _ & Hcap).
    rewrite (Hcap _ eq_refl) in H. injection H as <- _.
    apply matches_plain_numeral, Hw.
Qed.

Lemma digits_value_total ds :
  Forall (fun c => is_digit c = true) ds ->
  forall acc, exists n, digits_value acc ds = Some n.
Proof.
  induction 1 as [|d ds Hd _ IH]; intros acc; simpl; [eauto|].
  unfold is_digit in Hd. destruct (digit_value d); [apply IH|discriminate].
Qed.

Lemma split_period_digits ds :
  Forall (fun c => is_digit c = true) ds ->
  split_period ds = (ds, None) /\
  forall t, split_period (ds ++ PERIOD :: t) = (ds, Some t).
Proof.
  induction 1 as [|d ds Hd _ [IH1 IH2]]; simpl.
  - split; reflexivity.
  - destruct (is_digit_not_separator d Hd) as [_ ->].
    rewrite IH1. split; [reflexivity|]. intros t. rewrite IH2. reflexivity.
Qed.

(** [float] reads a numeral with no or two fractional digits as a whole
    number of hundredths. *)
Lemma py_float_numeral s :
  numeral s ->
  exists q (c : N), py_float s = Some q /\ (q == Z.of_N c # 100)%Q.
Proof.
  intros (ds & fr & -> & Hne & Hds & Hfr). unfold py_float.
  destruct (split_period_digits ds Hds) as [Hs1 Hs2].
  destruct (digits_value_total ds Hds 0) as [n Hn].
  destruct Hfr as [->|(d1 & d2 & -> & H1 & H2)].
  - rewrite app_nil_r, Hs1. destruct ds as [|d ds]; [contradiction|].
    rewrite Hn. simpl. exists (inject_Z (Z.of_N n)), (n * 100).
    split; [reflexivity|]. unfold Qeq. simpl. lia.
  - rewrite Hs2. destruct ds as [|d ds]; [contradiction|].
    rewrite Hn.
    destruct (digits_value_total [d1; d2]
                (Forall_cons_2 _ _ _ H1 (Forall_cons_2 _ _ _ H2 (Forall_nil_2 _)))
                0) as [m Hm].
    rewrite Hm. simpl. eexists _, (n * 100 + m). split; [reflexivity|].
    apply Qred_correct.
Qed.

(** Every amount the parser returns is a whole number of hundredths
    between 1 and 100,000,000: the exact values the embedding computes
    with are the ones on which the floats of the program agree with
    them. *)
Theorem parse_prize_amount_hundredths text a :
  parse_prize_amount text = Some a ->
  exists c : Z, (a == c # 100)%Q /\ (1 <= c <= 100000000)%Z.
Proof.
  unfold parse_prize_amount. intros H.
  destruct (first_amount_source _ _ _ H)
    as (before & p & after & Hps & Hp & _).
  assert (Hin : p ∈ patterns).
  { rewrite Hps. apply elem_of_app. right. apply elem_of_cons. auto. }
  pose proof (try_pattern_in_range _ _ _ Hp) as Hr.
  unfold try_pattern in Hp.
  destruct (findall p (sub_outside amount_char text)) as [|m0 ms] eqn:Hf;
    [discriminate|].
  assert (Hm0 : m0 ∈ findall_from p 0 (sub_outside amount_char text)).
  { unfold findall in Hf. rewrite Hf. apply elem_of_cons. auto. }
  destruct (findall_from_matched _ _ _ _ Hm0) as (s' & rest & Hm).
  destruct (py_float_numeral _ (match_here_numeral _ _ _ _ Hin Hm))
    as (q & c & Hq & Hc).
  rewrite Hq in Hp. destruct (in_prize_range q); [|discriminate].
  injection Hp as ->. exists (Z.of_N c). split; [exact Hc|].
  unfold in_prize_range in Hr. apply andb_true_iff in Hr as [Hlo Hhi].
  apply Qle_bool_iff in Hlo, Hhi. rewrite Hc in Hlo, Hhi.
  unfold Qle, MIN_AMOUNT, MAX_AMOUNT in Hlo, Hhi. simpl in Hlo, Hhi. lia.
Qed.

(** ** The parser on the examples of the specification *)

Example parse_grouped_with_noise :
  parse_prize_amount (lit "$1,234.56 WIN") = Some (30864 # 25) /\
  (30864 # 25 == 123456 # 100)%Q.
Proof. split; vm_compute; reflexivity. Qed.

Example parse_no_digits : parse_prize_amount (lit "JACKPOT") = None.
Proof. vm_compute. reflexivity. Qed.

Example parse_bare_digits : parse_prize_amount (lit "250") = Some 250%Q.
Proof. vm_compute. reflexivity. Qed.

Example parse_zero : parse_prize_amount (lit "0.00") = None.
Proof. vm_compute. reflexivity. Qed.

Example parse_euro_suffix :
  parse_prize_amount (lit "12,500" ++ [EURO]) = Some 12500%Q.
Proof. vm_compute. reflexivity. Qed.

(** ** Properties of the scan *)

Lemma update_status_amount d :
  prize_amount (update_status d) = prize_amount d /\
  confidence (update_status d) = confidence d.
Proof. split; reflexivity. Qed.

(** One iteration of the loop moves the best amount and confidence as
    one step of the classifier does. *)
Lemma scan_line_classifier cfg d ln :
  (prize_amount (scan_line cfg d ln), confidence (scan_line cfg d ln)) =
  classifier_step (confidence_threshold cfg)
    (prize_amount d, confidence d) (snd ln).
Proof.
  destruct ln as [bx [text conf]]. unfold scan_line, classifier_step, Qgt_bool.
  simpl.
  destruct (Qle_bool (confidence_threshold cfg) conf); simpl; [|reflexivity].
  rewrite parse_prize_amount_truthy.
  destruct (parse_prize_amount text) as [a|]; simpl; [|reflexivity].
  destruct (prize_amount d) as [b|] eqn:Hb; simpl; [|reflexivity].
  destruct (Qle_bool conf (confidence d)); simpl; [|reflexivity].
  reflexivity.
Qed.

Lemma scan_classifier cfg lines d :
  (prize_amount (foldl (scan_line cfg) d lines),
   confidence (foldl (scan_line cfg) d lines)) =
  foldl (classifier_step (confidence_threshold cfg))
    (prize_amount d, confidence d) (snd <$> lines).
Proof.
  revert d. induction lines as [|ln lines IH]; intros d; [reflexivity|].
  simpl. rewrite IH, scan_line_classifier. reflexivity.
Qed.

(** The [try] block is the three stages followed by the scan. *)
Lemma process_frame_try_recognise rt cfg frame mid :
  process_frame_try rt cfg frame mid =
  (result ← recognise rt cfg frame;
   Returns (update_status
              (foldl (scan_line cfg) (initial_data rt mid) (lines_of result)))).
Proof.
  unfold process_frame_try, recognise.
  destruct (extract_roi cfg frame) as [roi|e]; [|reflexivity]. simpl.
  destruct (preprocess_image rt roi) as [img|e]; [|reflexivity]. simpl.
  reflexivity.
Qed.

Lemma process_frame_recognised rt cfg frame mid result :
  recognise rt cfg frame = Returns result ->
  process_frame rt cfg frame mid =
  Returns (update_status
             (foldl (scan_line cfg) (initial_data rt mid) (lines_of result))).
Proof.
  intros H. unfold process_frame.
  rewrite process_frame_try_recognise, H. reflexivity.
Qed.

(** A stage raises exactly when the stages before the scan raise. *)
Lemma stage_raises_recognise rt cfg frame e :
  stage_raises rt cfg frame e <-> recognise rt cfg frame = Raises e.
Proof.
  unfold recognise, preprocess_image. split.
  - intros [H|roi H1 H|roi g H1 H2 H|roi g en H1 H2 H3 H|roi img H1 H2 H].
    + rewrite H. reflexivity.
    + rewrite H1. simpl. rewrite H. reflexivity.
    + rewrite H1. simpl. rewrite H2. simpl. rewrite H. reflexivity.
    + rewrite H1. simpl. rewrite H2. simpl. rewrite H3. simpl.
      rewrite H. reflexivity.
    + rewrite H1. simpl. unfold preprocess_image in H2. rewrite H2.
      simpl. exact H.
  - destruct (extract_roi cfg frame) as [roi|e1] eqn:H1; simpl.
    2:{ intros [= ->]. apply crop_raises. exact H1. }
    destruct (cvtColor rt roi) as [g|e2] eqn:H2; simpl.
    2:{ intros [= ->]. eapply gray_raises; eassumption. }
    destruct (clahe_apply rt g) as [en|e3] eqn:H3; simpl.
    2:{ intros [= ->]. eapply clahe_raises; eassumption. }
    destruct (fastNlMeansDenoising rt en) as [dn|e4] eqn:H4; simpl.
    2:{ intros [= ->]. eapply denoise_raises; eassumption. }
    intros H. eapply (ocr_raises rt cfg frame e roi dn); [exact H1| |exact H].
    unfold preprocess_image. rewrite H2. simpl. rewrite H3. simpl.
    rewrite H4. reflexivity.
Qed.

(** The three ways [process_frame] ends. *)
Lemma process_frame_cases rt cfg frame mid :
  (exists result,
     recognise rt cfg frame = Returns result /\
     process_frame rt cfg frame mid =
     Returns (update_status
                (foldl (scan_line cfg) (initial_data rt mid)
                   (lines_of result)))) \/
  (exists msg,
     recognise rt cfg frame = Raises (Exception msg) /\
     process_frame rt cfg frame mid = Returns (error_data rt mid msg)) \/
  (exists msg,
     recognise rt cfg frame = Raises (BaseException msg) /\
     process_frame rt cfg frame mid = Raises (BaseException msg)).
Proof.
  unfold process_frame. rewrite process_frame_try_recognise.
  destruct (recognise rt cfg frame) as [result|[msg|msg]]; simpl.
  - left. exists result. split; reflexivity.
  - right. left. exists msg. split; reflexivity.
  - right. right. exists msg. split; reflexivity.
Qed.

(** An exception outside the [Exception] class, such as the
    [KeyboardInterrupt] that [main] handles around its loop, passes
    through [process_frame]. *)
Lemma process_frame_interrupt rt cfg frame mid msg :
  recognise rt cfg frame = Raises (BaseException msg) ->
  process_frame rt cfg frame mid = Raises (BaseException msg).
Proof.
  intros H. unfold process_frame.
  rewrite process_frame_try_recognise, H. reflexivity.
Qed.

Lemma status_update_status d :
  status (update_status d) =
  if is_None (prize_amount d) then lit "no_prize_found" else SUCCESS.
Proof. reflexivity. Qed.

Lemma error_status_prefix rt mid msg :
  lit "error:" `prefix_of` status (error_data rt mid msg).
Proof. exists (lit " " ++ msg). reflexivity. Qed.

Lemma best_from_weaken cfg seen ln d :
  best_from cfg seen d -> best_from cfg (seen ++ [ln]) d.
Proof.
  intros H a Ha. destruct (H a Ha) as (l & Hin & Hrest).
  exists l. split; [|exact Hrest]. apply elem_of_app. left. exact Hin.
Qed.

Lemma scan_line_best_from cfg seen d ln :
  best_from cfg seen d -> best_from cfg (seen ++ [ln]) (scan_line cfg d ln).
Proof.
  intros H. pose proof (best_from_weaken cfg seen ln d H) as Hw.
  unfold scan_line.
  destruct (Qle_bool (confidence_threshold cfg) (snd (snd ln))) eqn:Hthr;
    [|exact Hw].
  destruct (truthy (parse_prize_amount (fst (snd ln))) &&
            (is_None (prize_amount d) ||
             Qgt_bool (snd (snd ln)) (confidence d))); [|exact Hw].
  intros a Ha. simpl in Ha. exists ln. split.
  - apply elem_of_app. right. apply list_elem_of_singleton. reflexivity.
  - simpl. repeat split; [exact Ha|exact Hthr].
Qed.

Lemma scan_best_from cfg lines seen d :
  best_from cfg seen d ->
  best_from cfg (seen ++ lines) (foldl (scan_line cfg) d lines).
Proof.
  revert seen d. induction lines as [|ln lines IH]; intros seen d H.
  - rewrite app_nil_r. exact H.
  - simpl. replace (seen ++ ln :: lines) with ((seen ++ [ln]) ++ lines)
      by (rewrite <- app_assoc; reflexivity).
    apply IH, scan_line_best_from, H.
Qed.

(** ** The result of [process_frame] *)

(** C1: for every recognition result and threshold, the best amount and
    confidence that [process_frame] returns are those of the Result
    Classifier of the specification: detections scanned in emission
    order, those below the threshold skipped, the others parsed, the best
    replaced only when it is empty or the new confidence is strictly
    greater.  For the detections ("$10.00", 0.9), ("$20.00", 0.9) and
    threshold 0.9 the best amount is 10.00: the first detection wins the
    tie. *)
Theorem C1_classifier_scan rt cfg frame mid result :
  recognise rt cfg frame = Returns result ->
  exists d,
    process_frame rt cfg frame mid = Returns d /\
    (prize_amount d, confidence d) =
      classifier (confidence_threshold cfg) (detections result) /\
    (confidence_threshold cfg = 9 # 10 ->
     detections result = [(lit "$10.00", 9 # 10); (lit "$20.00", 9 # 10)] ->
     prize_amount d = Some 10%Q).
Proof.
  intros H. eexists. split; [apply process_frame_recognised, H|].
  assert (Hscan :
    (prize_amount (update_status (foldl (scan_line cfg) (initial_data rt mid)
                                    (lines_of result))),
     confidence (update_status (foldl (scan_line cfg) (initial_data rt mid)
                                  (lines_of result)))) =
    classifier (confidence_threshold cfg) (detections result)).
  { destruct (update_status_amount
                (foldl (scan_line cfg) (initial_data rt mid)
                   (lines_of result))) as [-> ->].
    apply scan_classifier. }
  split; [exact Hscan|].
  intros Hthr Hdet. rewrite Hthr, Hdet in Hscan.
  apply (f_equal fst) in Hscan. exact Hscan.
Qed.

Lemma C1_classifier_scan_witness :
  recognise (quiet_runtime tie_lines) (test_config (0, 0, 2, 2)%Z)
    (test_frame 2 2) = Returns [Some tie_lines] /\
  exists d,
    process_frame (quiet_runtime tie_lines) (test_config (0, 0, 2, 2)%Z)
      (test_frame 2 2) (lit "SLOT-1") = Returns d /\
    (prize_amount d, confidence d) =
      classifier (9 # 10) (detections [Some tie_lines]) /\
    prize_amount d = Some 10%Q.
Proof.
  split; [reflexivity|].
  destruct (C1_classifier_scan (quiet_runtime tie_lines)
              (test_config (0, 0, 2, 2)%Z) (test_frame 2 2) (lit "SLOT-1")
              [Some tie_lines] eq_refl) as (d & Hd & Hbest & Htie).
  exists d. split; [exact Hd|]. split; [exact Hbest|].
  exact (Htie eq_refl eq_refl).
Defined.

(** C4: in every result that [process_frame] returns, the status is
    'success' if and only if the prize amount is not [None]. *)
Theorem C4_success_iff_amount rt cfg frame mid d :
  process_frame rt cfg frame mid = Returns d ->
  status d = SUCCESS <-> prize_amount d <> None.
Proof.
  intros H.
  destruct (process_frame_cases rt cfg frame mid)
    as [(result & _ & Hp)|[(msg & _ & Hp)|(msg & _ & Hp)]];
    rewrite Hp in H; [| |discriminate]; injection H as <-.
  - rewrite status_update_status.
    destruct (update_status_amount
                (foldl (scan_line cfg) (initial_data rt mid)
                   (lines_of result))) as [-> _].
    destruct (prize_amount _) as [a|]; simpl; split; try congruence.
    discriminate.
  - simpl. split; [discriminate|congruence].
Qed.

Lemma C4_success_iff_amount_witness :
  process_frame (quiet_runtime tie_lines) (test_config (0, 0, 2, 2)%Z)
    (test_frame 2 2) (lit "SLOT-1") =
  Returns {| machine_id := lit "SLOT-1"; timestamp := 1700000000 # 1;
             prize_amount := Some 10%Q; confidence := 9 # 10;
             raw_text :=
               [{| entry_text := lit "$10.00"; entry_confidence := 9 # 10 |};
                {| entry_text := lit "$20.00"; entry_confidence := 9 # 10 |}];
             status := SUCCESS |} /\
  (SUCCESS = SUCCESS <-> Some 10%Q <> None).
Proof.
  split; [reflexivity|].
  apply (C4_success_iff_amount (quiet_runtime tie_lines)
           (test_config (0, 0, 2, 2)%Z) (test_frame 2 2) (lit "SLOT-1")
           {| machine_id := lit "SLOT-1"; timestamp := 1700000000 # 1;
              prize_amount := Some 10%Q; confidence := 9 # 10;
              raw_text :=
                [{| entry_text := lit "$10.00"; entry_confidence := 9 # 10 |};
                 {| entry_text := lit "$20.00"; entry_confidence := 9 # 10 |}];
              status := SUCCESS |}).
  reflexivity.
Defined.

(** C5: when a stage of the pipeline raises an exception on a frame,
    [process_frame] does not raise: it returns a result whose status
    begins with 'error:' (it is 'error: ' followed by the message), whose
    confidence is 0 and whose prize amount is [None]. *)
Theorem C5_stage_exception_recovered rt cfg frame mid msg :
  stage_raises rt cfg frame (Exception msg) ->
  exists d,
    process_frame rt cfg frame mid = Returns d /\
    lit "error:" `prefix_of` status d /\
    status d = lit "error: " ++ msg /\
    confidence d = 0%Q /\
    prize_amount d = None.
Proof.
  intros H. apply stage_raises_recognise in H.
  exists (error_data rt mid msg). split.
  - unfold process_frame. rewrite process_frame_try_recognise, H.
    reflexivity.
  - split; [apply error_status_prefix|]. repeat split.
Qed.

Lemma C5_stage_exception_recovered_witness :
  stage_raises (failing_runtime (Exception (lit "empty image")))
    (test_config (5, 5, 8, 8)%Z) (test_frame 2 2)
    (Exception (lit "empty image")) /\
  exists d,
    process_frame (failing_runtime (Exception (lit "empty image")))
      (test_config (5, 5, 8, 8)%Z) (test_frame 2 2) (lit "SLOT-1")
      = Returns d /\
    lit "error:" `prefix_of` status d /\
    status d = lit "error: " ++ lit "empty image" /\
    confidence d = 0%Q /\
    prize_amount d = None.
Proof.
  assert (H : stage_raises (failing_runtime (Exception (lit "empty image")))
                (test_config (5, 5, 8, 8)%Z) (test_frame 2 2)
                (Exception (lit "empty image"))).
  { eapply gray_raises; reflexivity. }
  split; [exact H|].
  exact (C5_stage_exception_recovered _ _ _ (lit "SLOT-1") _ H).
Defined.

(** C9: the status of a result that [process_frame] returns is exactly
    one of 'success', 'no_prize_found' and a string that begins with
    'error:'; it is never the initial 'processing'. *)
Theorem C9_status_values rt cfg frame mid d :
  process_frame rt cfg frame mid = Returns d ->
  ((status d = SUCCESS /\ status d <> lit "no_prize_found" /\
    ~ lit "error:" `prefix_of` status d) \/
   (status d <> SUCCESS /\ status d = lit "no_prize_found" /\
    ~ lit "error:" `prefix_of` status d) \/
   (status d <> SUCCESS /\ status d <> lit "no_prize_found" /\
    lit "error:" `prefix_of` status d)) /\
  status d <> lit "processing".
Proof.
  intros H.
  destruct (process_frame_cases rt cfg frame mid)
    as [(result & _ & Hp)|[(msg & _ & Hp)|(msg & _ & Hp)]];
    rewrite Hp in H; [| |discriminate]; injection H as <-.
  - rewrite status_update_status.
    destruct (is_None _); (split; [|discriminate]).
    + right. left. repeat split; [discriminate|].
      intros [k Hk]. discriminate Hk.
    + left. repeat split; [discriminate|].
      intros [k Hk]. discriminate Hk.
  - split; [|discriminate]. right. right.
    repeat split; [discriminate|discriminate|apply error_status_prefix].
Qed.

Lemma C9_status_values_witness :
  process_frame (failing_runtime (Exception (lit "empty image")))
    (test_config (5, 5, 8, 8)%Z) (test_frame 2 2) (lit "SLOT-1") =
  Returns (error_data (failing_runtime (Exception (lit "empty image")))
             (lit "SLOT-1") (lit "empty image")) /\
  ((lit "error: empty image" = SUCCESS /\
    lit "error: empty image" <> lit "no_prize_found" /\
    ~ lit "error:" `prefix_of` lit "error: empty image") \/
   (lit "error: empty image" <> SUCCESS /\
    lit "error: empty image" = lit "no_prize_found" /\
    ~ lit "error:" `prefix_of` lit "error: empty image") \/
   (lit "error: empty image" <> SUCCESS /\
    lit "error: empty image" <> lit "no_prize_found" /\
    lit "error:" `prefix_of` lit "error: empty image")) /\
  lit "error: empty image" <> lit "processing".
Proof.
  split; [reflexivity|].
  apply (C9_status_values
           (failing_runtime (Exception (lit "empty image")))
           (test_config (5, 5, 8, 8)%Z) (test_frame 2 2) (lit "SLOT-1")
           (error_data (failing_runtime (Exception (lit "empty image")))
              (lit "SLOT-1") (lit "empty image"))).
  reflexivity.
Defined.

(** C10: in every result that [process_frame] returns with a prize
    amount, the confidence is that of a detection whose text parses to
    that amount, and it is at least the confidence threshold. *)
Theorem C10_confidence_of_best rt cfg frame mid d a :
  process_frame rt cfg frame mid = Returns d ->
  prize_amount d = Some a ->
  exists result ln,
    recognise rt cfg frame = Returns result /\
    ln ∈ lines_of result /\
    parse_prize_amount (fst (snd ln)) = Some a /\
    confidence d = snd (snd ln) /\
    (confidence_threshold cfg <= snd (snd ln))%Q.
Proof.
  intros H Ha.
  destruct (process_frame_cases rt cfg frame mid)
    as [(result & Hr & Hp)|[(msg & _ & Hp)|(msg & _ & Hp)]];
    rewrite Hp in H; [| |discriminate]; injection H as <-;
    [|discriminate Ha].
  assert (Hinv : best_from cfg ([] ++ lines_of result)
                   (foldl (scan_line cfg) (initial_data rt mid)
                      (lines_of result))).
  { apply scan_best_from. intros b Hb. discriminate Hb. }
  destruct (Hinv a Ha) as (ln & Hin & Hparse & Hconf & Hthr).
  exists result, ln. repeat split; try assumption.
  apply Qle_bool_iff, Hthr.
Qed.

Lemma C10_confidence_of_best_witness :
  process_frame (quiet_runtime tie_lines) (test_config (0, 0, 2, 2)%Z)
    (test_frame 2 2) (lit "SLOT-1") =
  Returns (update_status
             (foldl (scan_line (test_config (0, 0, 2, 2)%Z))
                (initial_data (quiet_runtime tie_lines) (lit "SLOT-1"))
                tie_lines)) /\
  exists result ln,
    recognise (quiet_runtime tie_lines) (test_config (0, 0, 2, 2)%Z)
      (test_frame 2 2) = Returns result /\
    ln ∈ lines_of result /\
    parse_prize_amount (fst (snd ln)) = Some 10%Q /\
    9 # 10 = snd (snd ln) /\
    (9 # 10 <= snd (snd ln))%Q.
Proof.
  split; [reflexivity|].
  apply (C10_confidence_of_best (quiet_runtime tie_lines)
           (test_config (0, 0, 2, 2)%Z) (test_frame 2 2) (lit "SLOT-1")
           (update_status
              (foldl (scan_line (test_config (0, 0, 2, 2)%Z))
                 (initial_data (quiet_runtime tie_lines) (lit "SLOT-1"))
                 tie_lines)) 10%Q);
    reflexivity.
Defined.

(** The later detection with the higher confidence replaces the best
    one. *)
Example classifier_higher_confidence :
  classifier (9 # 10) [(lit "$50.00", 95 # 100); (lit "$75.00", 99 # 100)] =
  (Some 75%Q, 99 # 100).
Proof. vm_compute. reflexivity. Qed.

Example classifier_below_threshold :
  classifier (9 # 10) [(lit "$50.00", 5 # 10)] = (None, 0%Q).
Proof. vm_compute. reflexivity. Qed.

(** One frame whose recognition yields ("PRIZE $500.00", 0.97): the
    result is a success with amount 500.00, and the iteration of [main]
    calls [update_prize] once, with the values of the result. *)
Example end_to_end_success :
  let rt := quiet_runtime [([], (lit "PRIZE $500.00", 97 # 100))] in
  let cfg := test_config (0, 0, 2, 2)%Z in
  exists r' d,
    main_iteration rt cfg (lit "SLOT-1") fresh_run (test_frame 2 2) =
      (r', Returns d) /\
    status d = SUCCESS /\ prize_amount d = Some 500%Q /\
    confidence d = 97 # 100 /\
    upserts (store r') =
      [{| up_machine_id := lit "SLOT-1"; up_prize_amount := 500;
          up_confidence := 97 # 100; up_timestamp := 1700000000 # 1 |}] /\
    frame_count r' = 1%nat /\ success_count r' = 1%nat.
Proof.
  eexists _, _. split; [vm_compute; reflexivity|].
  repeat split; vm_compute; reflexivity.
Qed.

(** ** The cropper *)

Lemma slice_index_nonneg i len :
  (0 <= i)%Z -> slice_index i len = Z.min i len.
Proof.
  intros H. unfold slice_index.
  destruct (Z.ltb_spec i 0); [lia|reflexivity].
Qed.

(** The slice [lo:hi] with [0 <= lo <= hi] on an axis of [n] elements
    starts at [min lo n] and has [min hi n - min lo n] elements. *)
Lemma slice_range_nonneg lo hi n :
  (0 <= lo <= hi)%Z ->
  slice_range lo hi n =
  (Z.to_nat (Z.min lo (Z.of_nat n)),
   Z.to_nat (Z.min hi (Z.of_nat n) - Z.min lo (Z.of_nat n))).
Proof.
  intros H. unfold slice_range.
  rewrite !slice_index_nonneg by lia. reflexivity.
Qed.

(** C6, as the code has it: for a rectangle with [0 <= x1 <= x2] and
    [0 <= y1 <= y2], [extract_roi] returns [frame[y1:y2, x1:x2]] and does
    not fail, whatever the frame.  The result is the part of the
    rectangle that lies in the frame: [min y2 rows - min y1 rows] rows,
    [min x2 cols - min x1 cols] columns, its pixel [(i, j)] being the
    pixel [(y1 + i, x1 + j)] of the frame.  On a frame with at least [y2]
    rows and [x2] columns its dimensions are exactly those of the
    rectangle, [y2 - y1] by [x2 - x1]. *)
Theorem C6_extract_roi_clips cfg frame x1 y1 x2 y2 :
  roi_coordinates cfg = (x1, y1, x2, y2) ->
  (0 <= x1 <= x2)%Z -> (0 <= y1 <= y2)%Z ->
  exists roi,
    extract_roi cfg frame = Returns roi /\
    Z.of_nat (nrows roi) =
      (Z.min y2 (Z.of_nat (nrows frame)) -
       Z.min y1 (Z.of_nat (nrows frame)))%Z /\
    Z.of_nat (ncols roi) =
      (Z.min x2 (Z.of_nat (ncols frame)) -
       Z.min x1 (Z.of_nat (ncols frame)))%Z /\
    (forall i j, (i < nrows roi)%nat -> (j < ncols roi)%nat ->
       at_ roi i j = at_ frame (Z.to_nat y1 + i)%nat (Z.to_nat x1 + j)%nat) /\
    ((y2 <= Z.of_nat (nrows frame))%Z -> (x2 <= Z.of_nat (ncols frame))%Z ->
     Z.of_nat (nrows roi) = (y2 - y1)%Z /\
     Z.of_nat (ncols roi) = (x2 - x1)%Z).
Proof.
  intros Hcfg Hx Hy. unfold extract_roi, getitem. rewrite Hcfg.
  rewrite (slice_range_nonneg y1 y2) by exact Hy.
  rewrite (slice_range_nonneg x1 x2) by exact Hx.
  eexists. split; [reflexivity|]. simpl.
  split; [lia|]. split; [lia|]. split.
  - intros i j Hi Hj. f_equal; lia.
  - intros Hr Hc. lia.
Qed.

Lemma C6_extract_roi_clips_witness :
  roi_coordinates (test_config (1, 0, 3, 2)%Z) = (1, 0, 3, 2)%Z /\
  (0 <= 1 <= 3)%Z /\ (0 <= 0 <= 2)%Z /\
  exists roi,
    extract_roi (test_config (1, 0, 3, 2)%Z) (test_frame 4 5) = Returns roi /\
    Z.of_nat (nrows roi) = (Z.min 2 4 - Z.min 0 4)%Z /\
    Z.of_nat (ncols roi) = (Z.min 3 5 - Z.min 1 5)%Z /\
    (forall i j, (i < nrows roi)%nat -> (j < ncols roi)%nat ->
       at_ roi i j =
       at_ (test_frame 4 5) (Z.to_nat 0 + i)%nat (Z.to_nat 1 + j)%nat) /\
    ((2 <= 4)%Z -> (3 <= 5)%Z ->
     Z.of_nat (nrows roi) = (2 - 0)%Z /\ Z.of_nat (ncols roi) = (3 - 1)%Z).
Proof.
  split; [reflexivity|]. split; [lia|]. split; [lia|].
  apply (C6_extract_roi_clips (test_config (1, 0, 3, 2)%Z) (test_frame 4 5)
           1 0 3 2)%Z; [reflexivity|lia|lia].
Defined.

(** Against C6 as stated: a rectangle outside the frame does not make
    [extract_roi] fail.  On a frame of two rows and two columns the
    rectangle (5, 5, 8, 8), which misses the frame, yields an empty
    array, and the rectangle (1, 1, 3, 3), which overlaps it, yields the
    one pixel they share. *)
Lemma C6_out_of_bounds_returns :
  ~ within_frame (test_config (5, 5, 8, 8)%Z) (test_frame 2 2) /\
  extract_roi (test_config (5, 5, 8, 8)%Z) (test_frame 2 2) =
    Returns (getitem (test_frame 2 2) 5 8 5 8) /\
  nrows (getitem (test_frame 2 2) 5 8 5 8) = 0%nat /\
  ncols (getitem (test_frame 2 2) 5 8 5 8) = 0%nat /\
  ~ within_frame (test_config (1, 1, 3, 3)%Z) (test_frame 2 2) /\
  extract_roi (test_config (1, 1, 3, 3)%Z) (test_frame 2 2) =
    Returns (getitem (test_frame 2 2) 1 3 1 3) /\
  nrows (getitem (test_frame 2 2) 1 3 1 3) = 1%nat /\
  ncols (getitem (test_frame 2 2) 1 3 1 3) = 1%nat /\
  at_ (getitem (test_frame 2 2) 1 3 1 3) 0 0 = [1; 1; 0]%Z /\
  ~ (forall cfg frame, ~ within_frame cfg frame ->
       exists e, extract_roi cfg frame = Raises e).
Proof.
  assert (H1 : ~ within_frame (test_config (5, 5, 8, 8)%Z) (test_frame 2 2)).
  { unfold within_frame. simpl. lia. }
  assert (H2 : ~ within_frame (test_config (1, 1, 3, 3)%Z) (test_frame 2 2)).
  { unfold within_frame. simpl. lia. }
  repeat (split; [first [exact H1|exact H2|reflexivity]|]).
  intros Hall. destruct (Hall _ _ H1) as [e He]. discriminate He.
Qed.

(** ** The persistence step *)

(** C8: [update_prize] is called only for a result whose status is
    'success'.  For a result with any other status [update_database]
    leaves the database as it is (no call recorded, the table unchanged),
    and so does the iteration of [main] that handles the result: it only
    counts the frame. *)
Theorem C8_upsert_only_on_success db result :
  (forall db' o, update_database db result = (db', o) ->
     upserts db' <> upserts db -> status result = SUCCESS) /\
  (status result <> SUCCESS ->
   update_database db result = (db, Returns ()) /\
   (forall r, record_result r result = (r, Returns ())) /\
   (forall rt cfg mid r frame,
      store r = db ->
      process_frame rt cfg frame mid = Returns result ->
      main_iteration rt cfg mid r frame =
      ({| frame_count := S (frame_count r);
          success_count := success_count r; store := db |},
       Returns result))).
Proof.
  split.
  - intros db' o. unfold update_database.
    destruct (bool_decide (status result = SUCCESS)) eqn:Hs.
    + intros _ _. apply bool_decide_eq_true in Hs. exact Hs.
    + intros [= <- _] Hne. contradiction Hne. reflexivity.
  - intros Hne. pose proof (bool_decide_eq_false_2 _ Hne) as Hs.
    split; [|split].
    + unfold update_database. rewrite Hs. reflexivity.
    + intros r. unfold record_result. rewrite Hs. reflexivity.
    + intros rt cfg mid r frame Hdb Hp. unfold main_iteration.
      rewrite Hp. unfold record_result. rewrite Hs. simpl.
      rewrite Hdb. reflexivity.
Qed.

Lemma C8_upsert_only_on_success_witness :
  status (error_data (quiet_runtime []) (lit "SLOT-1") (lit "empty image"))
    <> SUCCESS /\
  update_database empty_database
    (error_data (quiet_runtime []) (lit "SLOT-1") (lit "empty image")) =
  (empty_database, Returns ()) /\
  record_result fresh_run
    (error_data (quiet_runtime []) (lit "SLOT-1") (lit "empty image")) =
  (fresh_run, Returns ()).
Proof.
  assert (H : status (error_data (quiet_runtime []) (lit "SLOT-1")
                        (lit "empty image")) <> SUCCESS)
    by discriminate.
  split; [exact H|].
  destruct (proj2 (C8_upsert_only_on_success empty_database
                     (error_data (quiet_runtime []) (lit "SLOT-1")
                        (lit "empty image"))) H) as (Hdb & Hrec & _).
  split; [exact Hdb|exact (Hrec fresh_run)].
Defined.

(** ** Where the parser departs from its specification *)

(** C2: the text "$2,000,000.00" is not rejected.  The first match of
    the first pattern is "2,000,000.00", worth 2,000,000, which is out of
    range; the loop then goes on to the next patterns instead of
    returning [None], and the third one reads the leading "2": the
    parser returns 2.00. *)
Theorem C2_two_million_parsed_as_two :
  sub_outside amount_char (lit "$2,000,000.00") = lit "$2,000,000.00" /\
  findall pattern1 (lit "$2,000,000.00") = [lit "2,000,000.00"] /\
  py_float (replace_char COMMA (lit "2,000,000.00")) = Some 2000000%Q /\
  in_prize_range 2000000 = false /\
  parse_prize_amount (lit "$2,000,000.00") = Some 2%Q.
Proof. repeat split; vm_compute; reflexivity. Qed.

(** C3: the parser does not stop at the first pattern that has a match.
    On "$2,000,000.00" the first and the second pattern both match, with
    the first match "2,000,000.00", and the iteration of neither returns;
    the amount returned, 2.00, is the first match "2" of the third
    pattern.  On "0001" the first match of the first pattern is "000" and
    the amount returned, 1.00, is again a match of the third pattern. *)
Theorem C3_later_pattern_used :
  findall pattern1 (lit "$2,000,000.00") = [lit "2,000,000.00"] /\
  try_pattern (lit "$2,000,000.00") pattern1 = None /\
  findall pattern2 (lit "$2,000,000.00") = [lit "2,000,000.00"] /\
  try_pattern (lit "$2,000,000.00") pattern2 = None /\
  findall pattern3 (lit "$2,000,000.00") =
    [lit "2"; lit "000"; lit "000.00"] /\
  try_pattern (lit "$2,000,000.00") pattern3 = Some 2%Q /\
  parse_prize_amount (lit "$2,000,000.00") = Some 2%Q /\
  findall pattern1 (lit "0001") = [lit "000"; lit "1"] /\
  findall pattern3 (lit "0001") = [lit "0001"] /\
  parse_prize_amount (lit "0001") = Some 1%Q.
Proof. repeat split; vm_compute; reflexivity. Qed.

(** C7: parsing is not idempotent through the two-decimal rendering.
    "$1,234.56" parses to 1234.56, which [main] renders as "1234.56"; in
    that text the first pattern matches the first three digits only, and
    the parser returns 123.00. *)
Theorem C7_reparse_differs :
  parse_prize_amount (lit "$1,234.56") = Some (30864 # 25) /\
  (30864 # 25 == 123456 # 100)%Q /\
  format_2f (30864 # 25) = lit "1234.56" /\
  findall pattern1 (lit "1234.56") = [lit "123"; lit "4.56"] /\
  findall pattern3 (lit "1234.56") = [lit "1234.56"] /\
  parse_prize_amount (format_2f (30864 # 25)) = Some 123%Q.
Proof. repeat split; vm_compute; reflexivity. Qed.

(** ** The table behind [update_prize] *)

Lemma update_prize_lookup_row db u :
  fault db = None ->
  snd (update_prize db u) = Returns () /\
  table (fst (update_prize db u)) !! up_machine_id u =
    Some (row_of u (match table db !! up_machine_id u with
                    | Some _ => Some (current_timestamp db)
                    | None => None
                    end)).
Proof.
  intros Hf. unfold update_prize, execute_upsert. rewrite Hf. simpl.
  split; [reflexivity|].
  destruct (table db !! up_machine_id u); rewrite lookup_insert_eq;
    reflexivity.
Qed.

(** Writing over an existing key keeps the number of rows. *)
Lemma size_insert_present (t : gmap pystr prize_row) k row row' :
  t !! k = Some row -> size (<[k := row']> t) = size t.
Proof.
  intros Hrow.
  rewrite <- (insert_delete_eq t), map_size_insert_None
    by apply lookup_delete_eq.
  rewrite <- (insert_delete_id t k row Hrow) at 2.
  rewrite map_size_insert_None by apply lookup_delete_eq. reflexivity.
Qed.

(** X1: after a call of [update_prize] that the driver does not fail,
    looking the machine up yields the amount, confidence and detection
    time of the call; [updated_at] is the server's time when the machine
    already had a row, and stays unset on a new row. *)
Theorem X1_update_prize_lookup db u :
  fault db = None ->
  snd (update_prize db u) = Returns () /\
  table (fst (update_prize db u)) !! up_machine_id u =
    Some (row_of u (match table db !! up_machine_id u with
                    | Some _ => Some (current_timestamp db)
                    | None => None
                    end)).
Proof.
  intros Hf. unfold update_prize, execute_upsert, row_of. rewrite Hf.
  split; [reflexivity|]. simpl.
  destruct (table db !! up_machine_id u) as [old|];
    apply lookup_insert_eq.
Qed.

Lemma X1_update_prize_lookup_witness :
  fault empty_database = None /\
  snd (update_prize empty_database (upsert_of success_data 500)) =
    Returns () /\
  table (fst (update_prize empty_database (upsert_of success_data 500)))
    !! lit "SLOT-1" =
    Some (row_of (upsert_of success_data 500)
            (match table empty_database !! lit "SLOT-1" with
             | Some _ => Some (current_timestamp empty_database)
             | None => None
             end)).
Proof.
  split; [reflexivity|].
  exact (X1_update_prize_lookup empty_database
           (upsert_of success_data 500) eq_refl).
Defined.

(** X2: a call of [update_prize] touches the row of its machine only:
    the row of every other machine is as before, whether or not the
    driver fails, and the table gains a row only when the machine had
    none. *)
Theorem X2_update_prize_other_rows db u k :
  k <> up_machine_id u ->
  table (fst (update_prize db u)) !! k = table db !! k /\
  (size (table (fst (update_prize db u))) <= S (size (table db)))%nat /\
  (is_Some (table db !! up_machine_id u) ->
   size (table (fst (update_prize db u))) = size (table db)).
Proof.
  intros Hk. unfold update_prize, execute_upsert.
  destruct (fault db) as [e|]; simpl.
  { split; [reflexivity|]. split; [lia|reflexivity]. }
  destruct (table db !! up_machine_id u) as [row|] eqn:Hrow.
  - split; [apply lookup_insert_ne; congruence|].
    rewrite (size_insert_present _ _ row _ Hrow).
    split; [lia|reflexivity].
  - split; [apply lookup_insert_ne; congruence|].
    rewrite map_size_insert_None by exact Hrow.
    split; [lia|]. intros [x Hx]. discriminate Hx.
Qed.

Lemma X2_update_prize_other_rows_witness :
  lit "SLOT-2" <> up_machine_id (upsert_of success_data 500) /\
  table (fst (update_prize empty_database (upsert_of success_data 500)))
    !! lit "SLOT-2" = table empty_database !! lit "SLOT-2" /\
  (size (table (fst (update_prize empty_database
                       (upsert_of success_data 500))))
   <= S (size (table empty_database)))%nat /\
  (is_Some (table empty_database
              !! up_machine_id (upsert_of success_data 500)) ->
   size (table (fst (update_prize empty_database
                       (upsert_of success_data 500)))) =
   size (table empty_database)).
Proof.
  assert (H : lit "SLOT-2" <> up_machine_id (upsert_of success_data 500))
    by discriminate.
  split; [exact H|].
  exact (X2_update_prize_other_rows empty_database
           (upsert_of success_data 500) (lit "SLOT-2") H).
Defined.

(** X3: a second call of [update_prize] for the same machine overwrites
    the first: the row holds the amount, confidence and detection time of
    the second call, [updated_at] is set to the server's time, and no row
    is added. *)
Theorem X3_update_prize_overwrites db u1 u2 :
  fault db = None ->
  up_machine_id u1 = up_machine_id u2 ->
  table (fst (update_prize (fst (update_prize db u1)) u2))
    !! up_machine_id u2 =
    Some (row_of u2 (Some (current_timestamp db))) /\
  size (table (fst (update_prize (fst (update_prize db u1)) u2))) =
  size (table (fst (update_prize db u1))) /\
  upserts (fst (update_prize (fst (update_prize db u1)) u2)) =
  upserts db ++ [u1; u2].
Proof.
  intros Hf Hid.
  assert (H1 : fault (fst (update_prize db u1)) = None).
  { unfold update_prize. rewrite Hf. reflexivity. }
  assert (Hrow : is_Some (table (fst (update_prize db u1))
                            !! up_machine_id u2)).
  { rewrite <- Hid. unfold update_prize, execute_upsert. rewrite Hf. simpl.
    destruct (table db !! up_machine_id u1); rewrite lookup_insert_eq;
      eexists; reflexivity. }
  split; [|split].
  - destruct (update_prize_lookup_row (fst (update_prize db u1)) u2 H1)
      as [_ ->].
    destruct Hrow as [row ->]. f_equal. f_equal. f_equal.
    unfold update_prize. rewrite Hf. reflexivity.
  - unfold update_prize at 1. rewrite H1. unfold execute_upsert. simpl.
    destruct Hrow as [row Hrow]. rewrite Hrow.
    apply (size_insert_present _ _ row _ Hrow).
  - unfold update_prize. rewrite Hf. simpl.
    rewrite <- app_assoc. reflexivity.
Qed.

Lemma X3_update_prize_overwrites_witness :
  fault empty_database = None /\
  up_machine_id (upsert_of success_data 500) =
    up_machine_id (upsert_of success_data 750) /\
  table (fst (update_prize
                (fst (update_prize empty_database
                        (upsert_of success_data 500)))
                (upsert_of success_data 750)))
    !! lit "SLOT-1" =
    Some (row_of (upsert_of success_data 750) (Some (1700000001 # 1))) /\
  size (table (fst (update_prize
                      (fst (update_prize empty_database
                              (upsert_of success_data 500)))
                      (upsert_of success_data 750)))) =
  size (table (fst (update_prize empty_database
                      (upsert_of success_data 500)))) /\
  upserts (fst (update_prize
                  (fst (update_prize empty_database
                          (upsert_of success_data 500)))
                  (upsert_of success_data 750))) =
  upserts empty_database ++
    [upsert_of success_data 500; upsert_of success_data 750].
Proof.
  split; [reflexivity|]. split; [reflexivity|].
  exact (X3_update_prize_overwrites empty_database
           (upsert_of success_data 500) (upsert_of success_data 750)
           eq_refl eq_refl).
Defined.

(** X4: when the database driver fails, [update_database] leaves the
    table as it is and does not raise an [Exception]: it returns, or lets
    through the exception outside that class that the driver raised. *)
Theorem X4_update_database_driver_error db result db' o :
  fault db <> None ->
  update_database db result = (db', o) ->
  table db' = table db /\
  (o = Returns () \/
   exists msg, fault db = Some (BaseException msg) /\
     o = Raises (BaseException msg)).
Proof.
  intros Hf. unfold update_database, update_prize.
  destruct (bool_decide (status result = SUCCESS));
    [|intros [= <- <-]; auto].
  destruct (prize_amount result) as [a|]; [|intros [= <- <-]; auto].
  destruct (fault db) as [[msg|msg]|]; [| |contradiction];
    intros [= <- <-]; simpl; split; try reflexivity.
  - left. reflexivity.
  - right. exists msg. split; reflexivity.
Qed.

Lemma X4_update_database_driver_error_witness :
  fault (faulty_database (Exception (lit "connection lost"))) <> None /\
  update_database (faulty_database (Exception (lit "connection lost")))
    success_data =
  ({| table := ∅; upserts := [upsert_of success_data 500];
      current_timestamp := 1700000001 # 1;
      fault := Some (Exception (lit "connection lost")) |}, Returns ()) /\
  table {| table := ∅; upserts := [upsert_of success_data 500];
           current_timestamp := 1700000001 # 1;
           fault := Some (Exception (lit "connection lost")) |} =
  table (faulty_database (Exception (lit "connection lost"))) /\
  (Returns () = Returns () \/
   exists msg,
     fault (faulty_database (Exception (lit "connection lost"))) =
       Some (BaseException msg) /\
     @Returns unit () = Raises (BaseException msg)).
Proof.
  assert (H : fault (faulty_database (Exception (lit "connection lost")))
              <> None) by discriminate.
  split; [exact H|]. split; [reflexivity|].
  exact (X4_update_database_driver_error
           (faulty_database (Exception (lit "connection lost")))
           success_data _ _ H eq_refl).
Defined.

(** ** The cropper on any rectangle *)

Lemma slice_index_range i n :
  (0 <= slice_index i (Z.of_nat n) <= Z.of_nat n)%Z.
Proof. unfold slice_index. destruct (Z.ltb_spec i 0); lia. Qed.

(** The slice of an axis lies within the axis. *)
Lemma slice_range_within lo hi n :
  (fst (slice_range lo hi n) + snd (slice_range lo hi n) <= n)%nat \/
  snd (slice_range lo hi n) = 0%nat.
Proof.
  unfold slice_range. simpl.
  pose proof (slice_index_range lo n). pose proof (slice_index_range hi n).
  lia.
Qed.

(** X5: whatever the four coordinates are (negative, inverted, beyond
    the frame), the region [extract_roi] returns lies in the frame: it
    has no more rows and columns than the frame, and each of its pixels
    is the pixel of the frame at a position inside the frame, the same
    offset away for all. *)
Theorem X5_extract_roi_within_frame cfg frame :
  exists roi r0 c0,
    extract_roi cfg frame = Returns roi /\
    (nrows roi <= nrows frame)%nat /\ (ncols roi <= ncols frame)%nat /\
    forall i j, (i < nrows roi)%nat -> (j < ncols roi)%nat ->
      at_ roi i j = at_ frame (r0 + i)%nat (c0 + j)%nat /\
      (r0 + i < nrows frame)%nat /\ (c0 + j < ncols frame)%nat.
Proof.
  unfold extract_roi, getitem.
  destruct (roi_coordinates cfg) as [[[x1 y1] x2] y2].
  pose proof (slice_range_within y1 y2 (nrows frame)) as Hy.
  pose proof (slice_range_within x1 x2 (ncols frame)) as Hx.
  destruct (slice_range y1 y2 (nrows frame)) as [r0 h].
  destruct (slice_range x1 x2 (ncols frame)) as [c0 w].
  simpl in Hy, Hx. eexists _, r0, c0. split; [reflexivity|]. simpl.
  split; [lia|]. split; [lia|].
  intros i j Hi Hj. split; [reflexivity|]. lia.
Qed.

(** X6: cropping a crop is cropping once: for rectangles of non-negative
    coordinates, the second within the first and the first within the
    frame, the result has the shape and the pixels of the frame cropped
    to the second rectangle moved by the corner of the first. *)
Theorem X6_getitem_composes frame y1 y2 x1 x2 a b c d :
  (0 <= y1 <= y2)%Z -> (y2 <= Z.of_nat (nrows frame))%Z ->
  (0 <= x1 <= x2)%Z -> (x2 <= Z.of_nat (ncols frame))%Z ->
  (0 <= a <= b)%Z -> (b <= y2 - y1)%Z ->
  (0 <= c <= d)%Z -> (d <= x2 - x1)%Z ->
  nrows (getitem (getitem frame y1 y2 x1 x2) a b c d) =
    nrows (getitem frame (y1 + a) (y1 + b) (x1 + c) (x1 + d)) /\
  ncols (getitem (getitem frame y1 y2 x1 x2) a b c d) =
    ncols (getitem frame (y1 + a) (y1 + b) (x1 + c) (x1 + d)) /\
  forall i j,
    at_ (getitem (getitem frame y1 y2 x1 x2) a b c d) i j =
    at_ (getitem frame (y1 + a) (y1 + b) (x1 + c) (x1 + d)) i j.
Proof.
  intros Hy Hy2 Hx Hx2 Ha Hb Hc Hd. unfold getitem.
  rewrite (slice_range_nonneg y1 y2), (slice_range_nonneg x1 x2) by lia.
  cbn [nrows ncols at_].
  rewrite (slice_range_nonneg a b), (slice_range_nonneg c d) by lia.
  rewrite (slice_range_nonneg (y1 + a) (y1 + b)),
    (slice_range_nonneg (x1 + c) (x1 + d)) by lia.
  simpl. split; [lia|]. split; [lia|].
  intros i j. f_equal; lia.
Qed.

Lemma X6_getitem_composes_witness :
  (0 <= 1 <= 4)%Z /\ (4 <= Z.of_nat (nrows (test_frame 5 6)))%Z /\
  (0 <= 2 <= 6)%Z /\ (6 <= Z.of_nat (ncols (test_frame 5 6)))%Z /\
  (0 <= 1 <= 3)%Z /\ (3 <= 4 - 1)%Z /\
  (0 <= 0 <= 2)%Z /\ (2 <= 6 - 2)%Z /\
  nrows (getitem (getitem (test_frame 5 6) 1 4 2 6) 1 3 0 2) =
    nrows (getitem (test_frame 5 6) (1 + 1) (1 + 3) (2 + 0) (2 + 2)) /\
  ncols (getitem (getitem (test_frame 5 6) 1 4 2 6) 1 3 0 2) =
    ncols (getitem (test_frame 5 6) (1 + 1) (1 + 3) (2 + 0) (2 + 2)) /\
  forall i j,
    at_ (getitem (getitem (test_frame 5 6) 1 4 2 6) 1 3 0 2) i j =
    at_ (getitem (test_frame 5 6) (1 + 1) (1 + 3) (2 + 0) (2 + 2)) i j.
Proof.
  do 8 (split; [simpl; lia|]).
  apply (X6_getitem_composes (test_frame 5 6) 1 4 2 6 1 3 0 2);
    simpl; lia.
Defined.

(** ** More on the scan *)

Lemma scan_line_fields cfg d ln :
  machine_id (scan_line cfg d ln) = machine_id d /\
  timestamp (scan_line cfg d ln) = timestamp d /\
  raw_text (scan_line cfg d ln) = raw_text d ++ [entry_of ln] /\
  (prize_amount (scan_line cfg d ln) = None -> prize_amount d = None) /\
  (prize_amount d = None -> confidence d = 0%Q ->
   prize_amount (scan_line cfg d ln) = None ->
   confidence (scan_line cfg d ln) = 0%Q).
Proof.
  unfold scan_line.
  destruct (Qle_bool (confidence_threshold cfg) (snd (snd ln)));
    [|simpl; auto].
  destruct (truthy (parse_prize_amount (fst (snd ln)))) eqn:Ht;
    [|simpl; auto].
  destruct (prize_amount d) as [b|] eqn:Hb; simpl.
  - destruct (Qgt_bool (snd (snd ln)) (confidence d)); simpl;
      repeat split; try congruence.
    destruct (parse_prize_amount (fst (snd ln))); [|discriminate Ht].
    discriminate.
  - repeat split; try congruence;
      destruct (parse_prize_amount (fst (snd ln))); try discriminate.
Qed.

Lemma scan_fields cfg lines : forall d,
  machine_id (foldl (scan_line cfg) d lines) = machine_id d /\
  timestamp (foldl (scan_line cfg) d lines) = timestamp d /\
  raw_text (foldl (scan_line cfg) d lines) =
    raw_text d ++ (entry_of <$> lines) /\
  (prize_amount d = None -> confidence d = 0%Q ->
   prize_amount (foldl (scan_line cfg) d lines) = None ->
   confidence (foldl (scan_line cfg) d lines) = 0%Q).
Proof.
  induction lines as [|ln lines IH]; intros d; simpl.
  - rewrite app_nil_r. auto.
  - destruct (IH (scan_line cfg d ln)) as (H1 & H2 & H3 & H4).
    destruct (scan_line_fields cfg d ln) as (G1 & G2 & G3 & G4 & G5).
    rewrite H1, H2, H3, G1, G2, G3, <- app_assoc.
    repeat split. intros Hn Hc Hend.
    assert (Hmid : prize_amount (scan_line cfg d ln) = None).
    { destruct (prize_amount (scan_line cfg d ln)) as [b|] eqn:Hb;
        [|reflexivity].
      exfalso. clear H4.
      assert (Hkeep : forall ls e, prize_amount e <> None ->
                prize_amount (foldl (scan_line cfg) e ls) <> None).
      { induction ls as [|l ls IHl]; intros e He; simpl; [exact He|].
        apply IHl. intros Hnone.
        destruct (scan_line_fields cfg e l) as (_ & _ & _ & K & _).
        exact (He (K Hnone)). }
      apply (Hkeep lines (scan_line cfg d ln)); [congruence|exact Hend]. }
    apply H4; [exact Hmid| |exact Hend]. apply G5; assumption.
Qed.

(** X7: the result of a frame whose stages all return lists every
    detection in [raw_text], in the order of emission and whatever its
    confidence, each with its own text and confidence. *)
Theorem X7_raw_text_lists_detections rt cfg frame mid result :
  recognise rt cfg frame = Returns result ->
  exists d,
    process_frame rt cfg frame mid = Returns d /\
    raw_text d = entry_of <$> lines_of result /\
    length (raw_text d) = length (lines_of result).
Proof.
  intros H. eexists. split; [apply process_frame_recognised, H|].
  destruct (scan_fields cfg (lines_of result) (initial_data rt mid))
    as (_ & _ & Hraw & _).
  simpl. rewrite Hraw. simpl. split; [reflexivity|].
  apply length_fmap.
Qed.

Lemma X7_raw_text_lists_detections_witness :
  recognise (quiet_runtime prize_lines) (test_config (0, 0, 2, 2)%Z)
    (test_frame 2 2) = Returns [Some prize_lines] /\
  exists d,
    process_frame (quiet_runtime prize_lines) (test_config (0, 0, 2, 2)%Z)
      (test_frame 2 2) (lit "SLOT-1") = Returns d /\
    raw_text d = entry_of <$> lines_of [Some prize_lines] /\
    length (raw_text d) = length (lines_of [Some prize_lines]).
Proof.
  split; [reflexivity|].
  exact (X7_raw_text_lists_detections (quiet_runtime prize_lines)
           (test_config (0, 0, 2, 2)%Z) (test_frame 2 2) (lit "SLOT-1")
           [Some prize_lines] eq_refl).
Defined.

(** X8: every result that [process_frame] returns, on the normal and on
    the error path, carries the machine identifier it was called with
    and the time of the clock, and has confidence 0 whenever it has no
    prize amount. *)
Theorem X8_result_identity rt cfg frame mid d :
  process_frame rt cfg frame mid = Returns d ->
  machine_id d = mid /\ timestamp d = time_time rt /\
  (prize_amount d = None -> confidence d = 0%Q).
Proof.
  intros H.
  destruct (process_frame_cases rt cfg frame mid)
    as [(result & _ & Hp)|[(msg & _ & Hp)|(msg & _ & Hp)]];
    rewrite Hp in H; [| |discriminate]; injection H as <-.
  - destruct (scan_fields cfg (lines_of result) (initial_data rt mid))
      as (H1 & H2 & _ & H4).
    simpl. rewrite H1, H2. repeat split. intros Hn. apply H4; auto.
  - simpl. auto.
Qed.

Lemma X8_result_identity_witness :
  process_frame (quiet_runtime [([], (lit "$90.00", 5 # 10))])
    (test_config (0, 0, 2, 2)%Z) (test_frame 2 2) (lit "SLOT-1") =
  Returns {| machine_id := lit "SLOT-1"; timestamp := 1700000000 # 1;
             prize_amount := None; confidence := 0;
             raw_text := [entry_of ([], (lit "$90.00", 5 # 10))];
             status := lit "no_prize_found" |} /\
  lit "SLOT-1" = lit "SLOT-1" /\
  1700000000 # 1 = time_time (quiet_runtime [([], (lit "$90.00", 5 # 10))]) /\
  (@None Q = None -> 0%Q = 0%Q).
Proof.
  split; [reflexivity|].
  exact (X8_result_identity
           (quiet_runtime [([], (lit "$90.00", 5 # 10))])
           (test_config (0, 0, 2, 2)%Z) (test_frame 2 2) (lit "SLOT-1")
           _ eq_refl).
Defined.

Lemma eligible_spec cfg ln :
  eligible cfg ln = true <->
  Qle_bool (confidence_threshold cfg) (snd (snd ln)) = true /\
  exists a, parse_prize_amount (fst (snd ln)) = Some a.
Proof.
  unfold eligible. rewrite andb_true_iff.
  destruct (parse_prize_amount (fst (snd ln))) as [a|]; simpl; split.
  - intros [H _]. eauto.
  - intros [H _]. auto.
  - intros [_ H]. discriminate.
  - intros [_ [a H]]. discriminate.
Qed.

(** On a line that is not eligible the best amount and confidence stay;
    on an eligible one they become the line's when there was no best
    amount or the line's confidence is strictly greater. *)
Lemma scan_line_best cfg d ln :
  (eligible cfg ln = false ->
   prize_amount (scan_line cfg d ln) = prize_amount d /\
   confidence (scan_line cfg d ln) = confidence d) /\
  (eligible cfg ln = true ->
   if is_None (prize_amount d) || Qgt_bool (snd (snd ln)) (confidence d)
   then prize_amount (scan_line cfg d ln) =
          parse_prize_amount (fst (snd ln)) /\
        confidence (scan_line cfg d ln) = snd (snd ln)
   else prize_amount (scan_line cfg d ln) = prize_amount d /\
        confidence (scan_line cfg d ln) = confidence d).
Proof.
  unfold eligible, scan_line. rewrite parse_prize_amount_truthy.
  destruct (Qle_bool (confidence_threshold cfg) (snd (snd ln))); simpl.
  - destruct (is_None (parse_prize_amount (fst (snd ln)))); simpl.
    + split; [auto|discriminate].
    + split; [discriminate|]. intros _.
      destruct (is_None (prize_amount d) ||
                Qgt_bool (snd (snd ln)) (confidence d)); simpl; auto.
  - split; [auto|discriminate].
Qed.

Lemma scan_line_first_best cfg seen d ln :
  first_best cfg seen d ->
  first_best cfg (seen ++ [ln]) (scan_line cfg d ln).
Proof.
  intros Hinv. destruct (scan_line_best cfg d ln) as [Hno Hyes].
  destruct (eligible cfg ln) eqn:Hel.
  - specialize (Hyes eq_refl).
    apply eligible_spec in Hel as Hel'. destruct Hel' as [_ [a Ha]].
    unfold first_best in *.
    destruct (prize_amount d) as [b|] eqn:Hb; simpl in Hyes.
    + destruct Hinv as (i & l0 & Hi & Hl0 & Hp0 & Hc0 & Hmax & Hfirst).
      unfold Qgt_bool in Hyes.
      destruct (Qle_bool (snd (snd ln)) (confidence d)) eqn:Hcmp;
        simpl in Hyes; destruct Hyes as [-> ->].
      * apply Qle_bool_iff in Hcmp. rewrite Hc0 in Hcmp.
        exists i, l0. split; [apply lookup_app_l_Some, Hi|].
        repeat split; try assumption.
        -- intros j lj Hj Hej.
           apply lookup_app_Some in Hj as [Hj|[_ Hj]]; [eauto|].
           apply list_lookup_singleton_Some in Hj as [_ <-]. exact Hcmp.
        -- intros j lj Hlt Hj Hej.
           apply lookup_app_Some in Hj as [Hj|[Hge _]]; [eauto|].
           apply lookup_lt_Some in Hi. lia.
      * assert (Hgt : (confidence d < snd (snd ln))%Q).
        { apply Qnot_le_lt. intros Hle. apply Qle_bool_iff in Hle.
          congruence. }
        rewrite Hc0 in Hgt. rewrite Ha.
        exists (length seen), ln.
        split; [apply list_lookup_middle; reflexivity|].
        repeat split; try assumption.
        -- intros j lj Hj Hej.
           apply lookup_app_Some in Hj as [Hj|[_ Hj]].
           ++ apply Qlt_le_weak, (Qle_lt_trans _ (snd (snd l0))); eauto.
           ++ apply list_lookup_singleton_Some in Hj as [_ <-].
              apply Qle_refl.
        -- intros j lj Hlt Hj Hej.
           apply lookup_app_Some in Hj as [Hj|[Hge _]]; [|lia].
           apply (Qle_lt_trans _ (snd (snd l0))); eauto.
    + destruct Hyes as [-> ->]. rewrite Ha.
      exists (length seen), ln.
      split; [apply list_lookup_middle; reflexivity|].
      repeat split; try assumption.
      * intros j lj Hj Hej.
        apply lookup_app_Some in Hj as [Hj|[_ Hj]].
        -- apply list_elem_of_lookup_2 in Hj. rewrite (Hinv _ Hj) in Hej.
           discriminate.
        -- apply list_lookup_singleton_Some in Hj as [_ <-]. apply Qle_refl.
      * intros j lj Hlt Hj Hej.
        apply lookup_app_Some in Hj as [Hj|[Hge _]]; [|lia].
        apply list_elem_of_lookup_2 in Hj. rewrite (Hinv _ Hj) in Hej.
        discriminate.
  - destruct (Hno eq_refl) as [Hp Hc]. unfold first_best in *.
    rewrite Hp, Hc. destruct (prize_amount d) as [b|].
    + destruct Hinv as (i & l0 & Hi & Hl0 & Hp0 & Hc0 & Hmax & Hfirst).
      exists i, l0. split; [apply lookup_app_l_Some, Hi|].
      repeat split; try assumption.
      * intros j lj Hj Hej.
        apply lookup_app_Some in Hj as [Hj|[_ Hj]]; [eauto|].
        apply list_lookup_singleton_Some in Hj as [_ <-]. congruence.
      * intros j lj Hlt Hj Hej.
        apply lookup_app_Some in Hj as [Hj|[Hge _]]; [eauto|].
        apply lookup_lt_Some in Hi. lia.
    + intros l Hin. apply elem_of_app in Hin as [Hin|Hin]; [auto|].
      apply list_elem_of_singleton in Hin as ->. exact Hel.
Qed.

Lemma scan_first_best cfg lines : forall seen d,
  first_best cfg seen d ->
  first_best cfg (seen ++ lines) (foldl (scan_line cfg) d lines).
Proof.
  induction lines as [|ln lines IH]; intros seen d H.
  - rewrite app_nil_r. exact H.
  - simpl. replace (seen ++ ln :: lines) with ((seen ++ [ln]) ++ lines)
      by (rewrite <- app_assoc; reflexivity).
    apply IH, scan_line_first_best, H.
Qed.

Lemma initial_first_best cfg rt mid :
  first_best cfg [] (initial_data rt mid).
Proof. intros ln Hin. apply elem_of_nil in Hin. contradiction. Qed.

(** X9: the best amount of a result is that of the first detection of
    highest confidence among those that reach the threshold and parse:
    no such detection has a greater confidence, and every earlier one has
    a strictly smaller confidence. *)
Theorem X9_best_is_first_maximum rt cfg frame mid d a :
  process_frame rt cfg frame mid = Returns d ->
  prize_amount d = Some a ->
  exists result i ln,
    recognise rt cfg frame = Returns result /\
    lines_of result !! i = Some ln /\
    eligible cfg ln = true /\
    parse_prize_amount (fst (snd ln)) = Some a /\
    confidence d = snd (snd ln) /\
    (forall j lj, lines_of result !! j = Some lj ->
       eligible cfg lj = true -> (snd (snd lj) <= snd (snd ln))%Q) /\
    (forall j lj, (j < i)%nat -> lines_of result !! j = Some lj ->
       eligible cfg lj = true -> (snd (snd lj) < snd (snd ln))%Q).
Proof.
  intros H Ha.
  destruct (process_frame_cases rt cfg frame mid)
    as [(result & Hr & Hp)|[(msg & _ & Hp)|(msg & _ & Hp)]];
    rewrite Hp in H; [| |discriminate]; injection H as <-;
    [|discriminate Ha].
  pose proof (scan_first_best cfg (lines_of result) []
                (initial_data rt mid) (initial_first_best cfg rt mid))
    as Hinv.
  unfold first_best in Hinv. simpl in Ha, Hinv. rewrite Ha in Hinv.
  destruct Hinv as (i & ln & Hi & Hel & Hparse & Hconf & Hmax & Hfirst).
  exists result, i, ln. simpl. auto 10.
Qed.

Lemma X9_best_is_first_maximum_witness :
  process_frame (quiet_runtime prize_lines) (test_config (0, 0, 2, 2)%Z)
    (test_frame 2 2) (lit "SLOT-1") =
  Returns {| machine_id := lit "SLOT-1"; timestamp := 1700000000 # 1;
             prize_amount := Some 75%Q; confidence := 99 # 100;
             raw_text := fmap (M:=list) entry_of prize_lines; status := SUCCESS |} /\
  Some 75%Q = Some 75%Q /\
  exists result i ln,
    recognise (quiet_runtime prize_lines) (test_config (0, 0, 2, 2)%Z)
      (test_frame 2 2) = Returns result /\
    lines_of result !! i = Some ln /\
    eligible (test_config (0, 0, 2, 2)%Z) ln = true /\
    parse_prize_amount (fst (snd ln)) = Some 75%Q /\
    99 # 100 = snd (snd ln) /\
    (forall j lj, lines_of result !! j = Some lj ->
       eligible (test_config (0, 0, 2, 2)%Z) lj = true ->
       (snd (snd lj) <= snd (snd ln))%Q) /\
    (forall j lj, (j < i)%nat -> lines_of result !! j = Some lj ->
       eligible (test_config (0, 0, 2, 2)%Z) lj = true ->
       (snd (snd lj) < snd (snd ln))%Q).
Proof.
  split; [reflexivity|]. split; [reflexivity|].
  exact (X9_best_is_first_maximum (quiet_runtime prize_lines)
           (test_config (0, 0, 2, 2)%Z) (test_frame 2 2) (lit "SLOT-1")
           {| machine_id := lit "SLOT-1"; timestamp := 1700000000 # 1;
              prize_amount := Some 75%Q; confidence := 99 # 100;
              raw_text := fmap (M:=list) entry_of prize_lines; status := SUCCESS |}
           75%Q eq_refl eq_refl).
Defined.

(** X10: a frame whose stages all return has status 'success' exactly
    when some detection reaches the threshold and parses; otherwise its
    status is 'no_prize_found'. *)
Theorem X10_success_iff_eligible rt cfg frame mid result :
  recognise rt cfg frame = Returns result ->
  exists d,
    process_frame rt cfg frame mid = Returns d /\
    (status d = SUCCESS <->
     exists ln, ln ∈ lines_of result /\ eligible cfg ln = true) /\
    (status d = SUCCESS \/ status d = lit "no_prize_found").
Proof.
  intros H. eexists. split; [apply process_frame_recognised, H|].
  pose proof (scan_first_best cfg (lines_of result) []
                (initial_data rt mid) (initial_first_best cfg rt mid))
    as Hinv.
  unfold first_best in Hinv. rewrite status_update_status. simpl in Hinv.
  destruct (prize_amount (foldl (scan_line cfg) (initial_data rt mid)
                            (lines_of result))) as [a|]; simpl.
  - destruct Hinv as (i & ln & Hi & Hel & _).
    split; [|left; reflexivity]. split; [|reflexivity].
    intros _. exists ln. split; [|exact Hel].
    eapply list_elem_of_lookup_2, Hi.
  - split; [|right; reflexivity]. split; [discriminate|].
    intros (ln & Hin & Hel). rewrite (Hinv ln Hin) in Hel. discriminate.
Qed.

Lemma X10_success_iff_eligible_witness :
  recognise (quiet_runtime [([], (lit "$90.00", 5 # 10))])
    (test_config (0, 0, 2, 2)%Z) (test_frame 2 2) =
  Returns [Some [([], (lit "$90.00", 5 # 10))]] /\
  exists d,
    process_frame (quiet_runtime [([], (lit "$90.00", 5 # 10))])
      (test_config (0, 0, 2, 2)%Z) (test_frame 2 2) (lit "SLOT-1") =
    Returns d /\
    (status d = SUCCESS <->
     exists ln, ln ∈ lines_of [Some [([], (lit "$90.00", 5 # 10))]] /\
       eligible (test_config (0, 0, 2, 2)%Z) ln = true) /\
    (status d = SUCCESS \/ status d = lit "no_prize_found").
Proof.
  split; [reflexivity|].
  exact (X10_success_iff_eligible
           (quiet_runtime [([], (lit "$90.00", 5 # 10))])
           (test_config (0, 0, 2, 2)%Z) (test_frame 2 2) (lit "SLOT-1")
           _ eq_refl).
Defined.

(** X11: the prize amount of a result is never out of range: it lies
    between 0.01 and 1,000,000 and is a whole number of hundredths. *)
Theorem X11_result_amount_in_range rt cfg frame mid d a :
  process_frame rt cfg frame mid = Returns d ->
  prize_amount d = Some a ->
  (1 # 100 <= a)%Q /\ (a <= 1000000 # 1)%Q /\
  exists c : Z, (a == c # 100)%Q.
Proof.
  intros H Ha.
  destruct (process_frame_cases rt cfg frame mid)
    as [(result & Hr & Hp)|[(msg & _ & Hp)|(msg & _ & Hp)]];
    rewrite Hp in H; [| |discriminate]; injection H as <-;
    [|discriminate Ha].
  assert (Hinv : best_from cfg ([] ++ lines_of result)
                   (foldl (scan_line cfg) (initial_data rt mid)
                      (lines_of result))).
  { apply scan_best_from. intros b Hb. discriminate Hb. }
  destruct (Hinv a Ha) as (ln & _ & Hparse & _).
  pose proof (parse_prize_amount_in_range _ _ Hparse) as Hr'.
  apply andb_true_iff in Hr' as [Hlo Hhi].
  apply Qle_bool_iff in Hlo, Hhi.
  destruct (parse_prize_amount_hundredths _ _ Hparse) as (c & Hc & _).
  split; [exact Hlo|]. split; [exact Hhi|]. exists c. exact Hc.
Qed.

Lemma X11_result_amount_in_range_witness :
  process_frame (quiet_runtime prize_lines) (test_config (0, 0, 2, 2)%Z)
    (test_frame 2 2) (lit "SLOT-1") =
  Returns {| machine_id := lit "SLOT-1"; timestamp := 1700000000 # 1;
             prize_amount := Some 75%Q; confidence := 99 # 100;
             raw_text := fmap (M:=list) entry_of prize_lines; status := SUCCESS |} /\
  Some 75%Q = Some 75%Q /\
  (1 # 100 <= 75)%Q /\ (75 <= 1000000 # 1)%Q /\
  exists c : Z, (75 == c # 100)%Q.
Proof.
  split; [reflexivity|]. split; [reflexivity|].
  exact (X11_result_amount_in_range (quiet_runtime prize_lines)
           (test_config (0, 0, 2, 2)%Z) (test_frame 2 2) (lit "SLOT-1")
           {| machine_id := lit "SLOT-1"; timestamp := 1700000000 # 1;
              prize_amount := Some 75%Q; confidence := 99 # 100;
              raw_text := fmap (M:=list) entry_of prize_lines; status := SUCCESS |}
           75%Q eq_refl eq_refl).
Defined.

(** X12: an exception outside the [Exception] class that a stage raises
    (an interrupt) is not turned into an error result: it leaves
    [process_frame], and the pass of [main] ends with it, the frame not
    counted and the database untouched. *)
Theorem X12_interrupt_passes_through rt cfg frame mid msg :
  stage_raises rt cfg frame (BaseException msg) ->
  process_frame rt cfg frame mid = Raises (BaseException msg) /\
  forall r, main_iteration rt cfg mid r frame
            = (r, Raises (BaseException msg)).
Proof.
  intros H. apply stage_raises_recognise in H.
  pose proof (process_frame_interrupt rt cfg frame mid msg H) as Hp.
  split; [exact Hp|]. intros r. unfold main_iteration. rewrite Hp.
  reflexivity.
Qed.

Lemma X12_interrupt_passes_through_witness :
  stage_raises (failing_runtime (BaseException (lit "KeyboardInterrupt")))
    (test_config (0, 0, 2, 2)%Z) (test_frame 2 2)
    (BaseException (lit "KeyboardInterrupt")) /\
  process_frame (failing_runtime (BaseException (lit "KeyboardInterrupt")))
    (test_config (0, 0, 2, 2)%Z) (test_frame 2 2) (lit "SLOT-1") =
    Raises (BaseException (lit "KeyboardInterrupt")) /\
  forall r,
    main_iteration (failing_runtime (BaseException (lit "KeyboardInterrupt")))
      (test_config (0, 0, 2, 2)%Z) (lit "SLOT-1") r (test_frame 2 2) =
    (r, Raises (BaseException (lit "KeyboardInterrupt"))).
Proof.
  assert (H : stage_raises
                (failing_runtime (BaseException (lit "KeyboardInterrupt")))
                (test_config (0, 0, 2, 2)%Z) (test_frame 2 2)
                (BaseException (lit "KeyboardInterrupt"))).
  { eapply gray_raises; reflexivity. }
  split; [exact H|].
  exact (X12_interrupt_passes_through _ _ _ (lit "SLOT-1") _ H).
Defined.

(** ** More on the amount parser *)

(** X13: whatever the text, an amount that the parser returns lies
    between 0.01 and 1,000,000 and is a whole number of hundredths. *)
Theorem X13_parsed_amount_in_range text a :
  parse_prize_amount text = Some a ->
  (1 # 100 <= a)%Q /\ (a <= 1000000 # 1)%Q /\
  exists c : Z, (a == c # 100)%Q /\ (1 <= c <= 100000000)%Z.
Proof.
  intros H. pose proof (parse_prize_amount_in_range _ _ H) as Hr.
  apply andb_true_iff in Hr as [Hlo Hhi]. apply Qle_bool_iff in Hlo, Hhi.
  split; [exact Hlo|]. split; [exact Hhi|].
  apply (parse_prize_amount_hundredths text), H.
Qed.

Lemma X13_parsed_amount_in_range_witness :
  parse_prize_amount (lit "WIN $1,234.56") = Some (30864 # 25) /\
  (1 # 100 <= 30864 # 25)%Q /\ (30864 # 25 <= 1000000 # 1)%Q /\
  exists c : Z, (30864 # 25 == c # 100)%Q /\ (1 <= c <= 100000000)%Z.
Proof.
  split; [reflexivity|].
  exact (X13_parsed_amount_in_range (lit "WIN $1,234.56") (30864 # 25)
           eq_refl).
Defined.

(** A group that [findall] lists was captured by a match that starts
    somewhere in the text. *)
Lemma findall_from_within r g : forall s skip,
  g ∈ findall_from r skip s ->
  exists before s' rest,
    s = before ++ s' /\ match_here r s' = Some (g, rest).
Proof.
  induction s as [|c s IH]; intros skip H; simpl in H.
  - apply elem_of_nil in H. contradiction.
  - assert (Hrec : forall n, g ∈ findall_from r n s ->
              exists before s' rest,
                c :: s = before ++ s' /\ match_here r s' = Some (g, rest)).
    { intros n Hn. destruct (IH _ Hn) as (before & s' & rest & -> & Hm).
      exists (c :: before), s', rest. split; [reflexivity|exact Hm]. }
    destruct skip as [|n]; [|exact (Hrec _ H)].
    destruct (match_here r (c :: s)) as [[g0 rest]|] eqn:Hm;
      [|exact (Hrec _ H)].
    apply elem_of_cons in H as [->|H]; [|exact (Hrec _ H)].
    exists [], (c :: s), rest. split; [reflexivity|exact Hm].
Qed.

(** What a pattern of the parser matches contains a digit. *)
Lemma matches_pattern_digit p w :
  p ∈ patterns -> matches p w -> has_digit w.
Proof.
  assert (Hrep : forall lo hi a,
            matches (Repeat digit (S lo) hi) a -> has_digit a).
  { intros lo hi a Ha. apply matches_repeat_class in Ha as (Hd & Hlo & _).
    destruct a as [|c a]; [simpl in Hlo; lia|].
    apply Forall_cons in Hd as [Hc _]. exists c. split; [|exact Hc].
    apply elem_of_cons. auto. }
  assert (Hl : forall a b, has_digit a -> has_digit (a ++ b)).
  { intros a b (c & Hc & Hd). exists c. split; [|exact Hd].
    apply elem_of_app. auto. }
  assert (Hr : forall a b, has_digit b -> has_digit (a ++ b)).
  { intros a b (c & Hc & Hd). exists c. split; [|exact Hd].
    apply elem_of_app. auto. }
  unfold patterns. intros Hp H.
  apply elem_of_cons in Hp as [->|Hp];
    [|apply elem_of_cons in Hp as [->|Hp];
      [|apply list_elem_of_singleton in Hp as ->]].
  - destruct H as (w0 & w1 & -> & _ & a & bc & -> & Ha & _).
    apply Hr, Hl, (Hrep _ _ _ Ha).
  - destruct H as (w1 & w0 & -> & (a & bc & -> & Ha & _) & _).
    apply Hl, Hl, (Hrep _ _ _ Ha).
  - destruct H as (w0 & w1 & -> & _ & a & bc & -> & Ha & _).
    apply Hr, Hl, (Hrep _ _ _ Ha).
Qed.

Lemma findall_no_digit p s :
  p ∈ patterns -> (forall c, c ∈ s -> is_digit c = false) ->
  findall p s = [].
Proof.
  intros Hp Hs. unfold findall.
  destruct (findall_from p 0 s) as [|g gs] eqn:Hf; [reflexivity|].
  exfalso.
  assert (Hg : g ∈ findall_from p 0 s) by (rewrite Hf; apply elem_of_cons; auto).
  destruct (findall_from_within _ _ _ _ Hg) as (before & s' & rest & -> & Hm).
  unfold match_here in Hm.
  apply rmatch_sound in Hm as (w & rest' & cap' & -> & Hw & _).
  destruct (matches_pattern_digit p w Hp Hw) as (c & Hc & Hd).
  rewrite (Hs c) in Hd; [discriminate|].
  apply elem_of_app. right. apply elem_of_app. left. exact Hc.
Qed.

Lemma sub_outside_elem keep c t :
  c ∈ sub_outside keep t <-> c ∈ t /\ keep c = true.
Proof.
  induction t as [|d t IH]; simpl.
  - split; [intros H|intros [H _]]; apply elem_of_nil in H; contradiction.
  - destruct (keep d) eqn:Hk; rewrite ?elem_of_cons, IH.
    + split; [intros [->|[H1 H2]]; auto|intros [[->|H1] H2]; auto].
    + split; [intros [H1 H2]; auto|intros [[->|H1] H2]; auto]. congruence.
Qed.

(** X14: a text without a decimal digit (the empty text, a word) has no
    amount: the parser returns [None]. *)
Theorem X14_no_digit_no_amount text :
  (forall c, c ∈ text -> is_digit c = false) ->
  parse_prize_amount text = None.
Proof.
  intros H. unfold parse_prize_amount.
  assert (Hc : forall c, c ∈ sub_outside amount_char text ->
            is_digit c = false).
  { intros c Hin. apply sub_outside_elem in Hin as [Hin _]. auto. }
  assert (Hp : forall p, p ∈ patterns ->
            try_pattern (sub_outside amount_char text) p = None).
  { intros p Hp. unfold try_pattern.
    rewrite (findall_no_digit p _ Hp Hc). reflexivity. }
  unfold patterns in *. simpl.
  rewrite !Hp; [reflexivity| | |]; rewrite !elem_of_cons; auto.
Qed.

Lemma X14_no_digit_no_amount_witness :
  (forall c, c ∈ lit "JACKPOT" -> is_digit c = false) /\
  parse_prize_amount (lit "JACKPOT") = None.
Proof.
  assert (H : forall c, c ∈ lit "JACKPOT" -> is_digit c = false).
  { intros c Hc.
    repeat (apply elem_of_cons in Hc as [->|Hc]; [reflexivity|]).
    apply elem_of_nil in Hc. contradiction. }
  split; [exact H|].
  exact (X14_no_digit_no_amount (lit "JACKPOT") H).
Defined.

Lemma rmatch_group {A : Type} r s cap
    (k : pystr -> option pystr -> option A) :
  rmatch (Group r) s cap k =
  rmatch r s cap
    (fun s1 _ => k s1 (Some (take (length s - length s1)%nat s))).
Proof. reflexivity. Qed.

(** A repetition that may be empty succeeds where the rest of the
    pattern does. *)
Lemma rmatch_optional {A : Type} r hi s cap
    (k : pystr -> option pystr -> option A) :
  k s cap <> None -> rmatch (Repeat r 0 hi) s cap k <> None.
Proof.
  intros Hk. simpl.
  destruct (match hi with Some h => h | None => length s end) as [|n];
    [exact Hk|].
  destruct (rmatch r s cap _); [congruence|exact Hk].
Qed.

(** A repetition of at least one digit succeeds on a digit where the
    rest of the pattern always does. *)
Lemma rmatch_digits_head {A : Type} hi d s cap
    (k : pystr -> option pystr -> option A) :
  is_digit d = true -> (forall s1 c1, k s1 c1 <> None) ->
  rmatch (Repeat digit 1 (Some (S hi))) (d :: s) cap k <> None.
Proof.
  intros Hd Hk.
  pose proof (rmatch_optional digit (Some hi) s cap k (Hk s cap)) as H.
  change (rmatch (Repeat digit 1 (Some (S hi))) (d :: s) cap k) with
    (match rmatch digit (d :: s) cap
             (fun s1 cap1 =>
                if (length s1 <? length (d :: s))%nat
                then rmatch (Repeat digit 0 (Some hi)) s1 cap1 k
                else None) with
     | Some x => Some x
     | None => None
     end).
  set (rest := rmatch (Repeat digit 0 (Some hi))) in *.
  unfold digit. cbn [rmatch]. rewrite Hd.
  replace (length s <? length (d :: s))%nat with true
    by (symmetry; apply Nat.ltb_lt; simpl; lia).
  destruct (rest s cap k); [congruence|contradiction].
Qed.

(** The first pattern matches wherever a digit stands. *)
Lemma match_here_pattern1_digit d s :
  is_digit d = true -> match_here pattern1 (d :: s) <> None.
Proof.
  intros Hd. unfold match_here, pattern1. rewrite rmatch_seq.
  apply rmatch_optional. rewrite rmatch_group. unfold grouped.
  rewrite rmatch_seq. apply rmatch_digits_head; [exact Hd|].
  intros s1 c1. rewrite rmatch_seq.
  apply rmatch_optional, rmatch_optional. discriminate.
Qed.

Lemma findall_pattern1_digit s :
  has_digit s -> findall pattern1 s <> [].
Proof.
  unfold findall. induction s as [|c s IH]; intros (d & Hin & Hd).
  - apply elem_of_nil in Hin. contradiction.
  - simpl. destruct (match_here pattern1 (c :: s)) as [[g rest]|] eqn:Hm;
      [discriminate|].
    apply elem_of_cons in Hin as [->|Hin].
    + exfalso. exact (match_here_pattern1_digit _ _ Hd Hm).
    + apply IH. exists d. auto.
Qed.

(** X15: in a text with a decimal digit the first pattern always has a
    match; its first match reads as a number, and when that number lies
    within the bounds it is what the parser returns.  The second and the
    third pattern thus decide only when it is out of range. *)
Theorem X15_first_candidate text :
  has_digit text ->
  exists m0 ms q,
    findall pattern1 (sub_outside amount_char text) = m0 :: ms /\
    py_float (replace_char COMMA m0) = Some q /\
    (in_prize_range q = true -> parse_prize_amount text = Some q) /\
    (in_prize_range q = false ->
     parse_prize_amount text =
     first_amount (sub_outside amount_char text) [pattern2; pattern3]).
Proof.
  intros (d & Hin & Hd).
  assert (Hclean : has_digit (sub_outside amount_char text)).
  { exists d. split; [|exact Hd]. apply sub_outside_elem.
    split; [exact Hin|]. unfold amount_char. rewrite Hd. reflexivity. }
  pose proof (findall_pattern1_digit _ Hclean) as Hne.
  destruct (findall pattern1 (sub_outside amount_char text))
    as [|m0 ms] eqn:Hf; [contradiction|].
  assert (Hm0 : m0 ∈ findall_from pattern1 0 (sub_outside amount_char text)).
  { unfold findall in Hf. rewrite Hf. apply elem_of_cons. auto. }
  destruct (findall_from_matched _ _ _ _ Hm0) as (s' & rest & Hm).
  assert (Hp1 : pattern1 ∈ patterns) by (apply elem_of_cons; auto).
  destruct (py_float_numeral _ (match_here_numeral _ _ _ _ Hp1 Hm))
    as (q & c & Hq & _).
  exists m0, ms, q. split; [reflexivity|]. split; [exact Hq|].
  split; intros Hr; unfold parse_prize_amount, patterns;
    cbn [first_amount]; unfold try_pattern at 1;
    rewrite Hf, Hq, Hr; reflexivity.
Qed.

Lemma X15_first_candidate_witness :
  has_digit (lit "WIN 1234.56") /\
  exists m0 ms q,
    findall pattern1 (sub_outside amount_char (lit "WIN 1234.56")) =
      m0 :: ms /\
    py_float (replace_char COMMA m0) = Some q /\
    (in_prize_range q = true ->
     parse_prize_amount (lit "WIN 1234.56") = Some q) /\
    (in_prize_range q = false ->
     parse_prize_amount (lit "WIN 1234.56") =
     first_amount (sub_outside amount_char (lit "WIN 1234.56"))
       [pattern2; pattern3]).
Proof.
  assert (H : has_digit (lit "WIN 1234.56")).
  { exists 49. split; [|reflexivity].
    do 4 (apply elem_of_cons; right). apply elem_of_cons. left.
    reflexivity. }
  split; [exact H|].
  exact (X15_first_candidate (lit "WIN 1234.56") H).
Defined.

Lemma sub_outside_app keep a b :
  sub_outside keep (a ++ b) = sub_outside keep a ++ sub_outside keep b.
Proof.
  induction a as [|c a IH]; simpl; [reflexivity|].
  destruct (keep c); rewrite IH; reflexivity.
Qed.

(** X16: characters other than digits, period, comma and the three
    currency symbols count for nothing, wherever they stand: a text
    parses as the text without them, so that digits they separate are
    read together. *)
Theorem X16_noise_is_ignored a noise b :
  (forall c, c ∈ noise -> amount_char c = false) ->
  parse_prize_amount (a ++ noise ++ b) = parse_prize_amount (a ++ b).
Proof.
  intros H. unfold parse_prize_amount. rewrite !sub_outside_app.
  assert (Hn : sub_outside amount_char noise = []).
  { induction noise as [|c n IH]; simpl; [reflexivity|].
    rewrite (H c) by (apply elem_of_cons; auto).
    apply IH. intros c' Hc'. apply H, elem_of_cons. auto. }
  rewrite Hn. reflexivity.
Qed.

Lemma X16_noise_is_ignored_witness :
  (forall c, c ∈ lit " x " -> amount_char c = false) /\
  parse_prize_amount (lit "12" ++ lit " x " ++ lit "5.00") =
  parse_prize_amount (lit "12" ++ lit "5.00").
Proof.
  assert (H : forall c, c ∈ lit " x " -> amount_char c = false).
  { intros c Hc.
    repeat (apply elem_of_cons in Hc as [->|Hc]; [reflexivity|]).
    apply elem_of_nil in Hc. contradiction. }
  split; [exact H|].
  exact (X16_noise_is_ignored (lit "12") (lit " x ") (lit "5.00") H).
Defined.

(** ** The loop of [main] *)

Lemma process_frame_success_amount rt cfg frame mid d :
  process_frame rt cfg frame mid = Returns d ->
  machine_id d = mid /\
  (status d = SUCCESS -> exists a, prize_amount d = Some a) /\
  (forall a, prize_amount d = Some a -> status d = SUCCESS).
Proof.
  intros H.
  destruct (process_frame_cases rt cfg frame mid)
    as [(result & _ & Hp)|[(msg & _ & Hp)|(msg & _ & Hp)]];
    rewrite Hp in H; [| |discriminate]; injection H as <-.
  - destruct (scan_fields cfg (lines_of result) (initial_data rt mid))
      as (H1 & _).
    split; [simpl; rewrite H1; reflexivity|].
    rewrite status_update_status. simpl.
    destruct (prize_amount _) as [a|]; simpl.
    + split; [eauto|reflexivity].
    + split; [discriminate|]. intros a Ha. discriminate Ha.
  - simpl. split; [reflexivity|]. split; [discriminate|].
    intros a Ha. discriminate Ha.
Qed.

(** What [update_database] does to the database for a result with status
    'success' and an amount: exactly one call of [update_prize]. *)
Lemma update_database_success db d a :
  status d = SUCCESS -> prize_amount d = Some a ->
  fst (update_database db d) = fst (update_prize db (upsert_of d a)) /\
  (fault db = None -> snd (update_database db d) = Returns ()).
Proof.
  intros Hs Ha. unfold update_database.
  rewrite (bool_decide_eq_true_2 _ Hs), Ha. fold (upsert_of d a).
  unfold update_prize. destruct (fault db) as [[msg|msg]|]; simpl;
    split; try reflexivity; discriminate.
Qed.

Lemma update_prize_effect db u :
  upserts (fst (update_prize db u)) = upserts db ++ [u] /\
  forall k, k <> up_machine_id u ->
    table (fst (update_prize db u)) !! k = table db !! k.
Proof.
  unfold update_prize, execute_upsert.
  destruct (fault db); simpl; [auto|]. split; [reflexivity|].
  intros k Hk.
  destruct (table db !! up_machine_id u);
    apply lookup_insert_ne; congruence.
Qed.

(** What one pass does to the counters and the database. *)
Lemma main_iteration_step rt cfg mid r frame r' o :
  main_iteration rt cfg mid r frame = (r', o) ->
  (r' = r /\ exists e, o = Raises e) \/
  (frame_count r' = S (frame_count r) /\
   success_count r' = success_count r /\ store r' = store r) \/
  (frame_count r' = S (frame_count r) /\
   success_count r' = S (success_count r) /\
   exists u, up_machine_id u = mid /\
     store r' = fst (update_prize (store r) u)).
Proof.
  unfold main_iteration.
  destruct (process_frame rt cfg frame mid) as [d|e] eqn:Hp.
  2:{ intros [= <- <-]. left. eauto. }
  destruct (process_frame_success_amount _ _ _ _ _ Hp) as (Hmid & Hamt & _).
  unfold record_result.
  destruct (bool_decide (status d = SUCCESS)) eqn:Hs; simpl.
  - apply bool_decide_eq_true in Hs. destruct (Hamt Hs) as [a Ha].
    destruct (update_database_success (store r) d a Hs Ha) as [Hdb _].
    destruct (update_database (store r) d) as [db' o'] eqn:Hu.
    simpl in Hdb. subst db'.
    intros H. right. right.
    assert (Hr : r' = {| frame_count := S (frame_count r);
                         success_count := S (success_count r);
                         store := fst (update_prize (store r)
                                         (upsert_of d a)) |}).
    { destruct o'; injection H as <- _; reflexivity. }
    subst r'. simpl. repeat split. exists (upsert_of d a). auto.
  - intros [= <- _]. right. left. auto.
Qed.

(** What a run of the loop does to the counters and the database. *)
Lemma main_loop_effect cfg mid headless ticks : forall r r' e,
  main_loop cfg mid headless ticks r = (r', e) ->
  exists us,
    upserts (store r') = upserts (store r) ++ us /\
    (success_count r' = success_count r + length us)%nat /\
    (frame_count r <= frame_count r')%nat /\
    (length us <= frame_count r' - frame_count r)%nat /\
    (frame_count r' - frame_count r <= length ticks)%nat /\
    Forall (fun u => up_machine_id u = mid) us /\
    forall k, k <> mid -> table (store r') !! k = table (store r) !! k.
Proof.
  assert (Hnil : forall r : run, exists us,
            upserts (store r) = upserts (store r) ++ us /\
            (success_count r = success_count r + length us)%nat /\
            (frame_count r <= frame_count r)%nat /\
            (length us <= frame_count r - frame_count r)%nat /\
            (frame_count r - frame_count r <= 0)%nat /\
            Forall (fun u => up_machine_id u = mid) us /\
            forall k, k <> mid ->
              table (store r) !! k = table (store r) !! k).
  { intros r. exists []. rewrite app_nil_r. simpl.
    repeat split; auto; lia. }
  induction ticks as [|t ts IH]; intros r r' e; simpl.
  - intros [= <- <-]. apply Hnil.
  - destruct (tick_frame t) as [frame|].
    2:{ intros [= <- <-]. destruct (Hnil r) as (us & H).
        exists us. intuition lia. }
    set (r0 := {| frame_count := frame_count r;
                  success_count := success_count r;
                  store := at_tick t (store r) |}).
    destruct (main_iteration (tick_runtime t) cfg mid r0 frame)
      as [r1 o] eqn:Hit.
    assert (Hstep : exists us,
              upserts (store r1) = upserts (store r) ++ us /\
              (success_count r1 = success_count r + length us)%nat /\
              (frame_count r <= frame_count r1)%nat /\
              (length us <= frame_count r1 - frame_count r)%nat /\
              (frame_count r1 - frame_count r <= 1)%nat /\
              Forall (fun u => up_machine_id u = mid) us /\
              forall k, k <> mid ->
                table (store r1) !! k = table (store r) !! k).
    { destruct (main_iteration_step _ _ _ _ _ _ _ Hit)
        as [[-> _]|[(Hf & Hs & Hst)|(Hf & Hs & u & Hu & Hst)]].
      - exists []. rewrite app_nil_r. simpl. repeat split; auto; lia.
      - exists []. rewrite app_nil_r, Hf, Hs, Hst. simpl.
        repeat split; auto; lia.
      - destruct (update_prize_effect (store r0) u) as [Hups Htab].
        exists [u]. rewrite Hf, Hs, Hst, Hups. simpl.
        repeat split; auto; try lia.
        intros k Hk. rewrite Htab by congruence. reflexivity. }
    assert (Hend : forall e0, (r1, e0) = (r', e) ->
              exists us,
                upserts (store r') = upserts (store r) ++ us /\
                (success_count r' = success_count r + length us)%nat /\
                (frame_count r <= frame_count r')%nat /\
                (length us <= frame_count r' - frame_count r)%nat /\
                (frame_count r' - frame_count r <= S (length ts))%nat /\
                Forall (fun u => up_machine_id u = mid) us /\
                forall k, k <> mid ->
                  table (store r') !! k = table (store r) !! k).
    { intros e0 [= <- _]. destruct Hstep as (us & H).
      exists us. intuition lia. }
    destruct o as [d|e1]; [|apply Hend].
    assert (Hgo : main_loop cfg mid headless ts r1 = (r', e) ->
              exists us,
                upserts (store r') = upserts (store r) ++ us /\
                (success_count r' = success_count r + length us)%nat /\
                (frame_count r <= frame_count r')%nat /\
                (length us <= frame_count r' - frame_count r)%nat /\
                (frame_count r' - frame_count r <= S (length ts))%nat /\
                Forall (fun u => up_machine_id u = mid) us /\
                forall k, k <> mid ->
                  table (store r') !! k = table (store r) !! k);
      [|destruct headless; [exact Hgo|];
        destruct (tick_display t); [apply Hend|];
        destruct (quit_key (tick_key t)); [apply Hend|exact Hgo]].
    intros Hrest.
    destruct (IH _ _ _ Hrest) as (us2 & G1 & G2 & G3 & G4 & G5 & G6 & G7).
    destruct Hstep as (us1 & H1 & H2 & H3 & H4 & H5 & H6 & H7).
    exists (us1 ++ us2). rewrite G1, H1, app_assoc, length_app.
    split; [reflexivity|]. split; [lia|]. split; [lia|].
    split; [lia|]. split; [lia|].
    split; [apply Forall_app; auto|].
    intros k Hk. rewrite G7, H7 by exact Hk. reflexivity.
Qed.

Lemma accuracy_bounds r :
  (success_count r <= frame_count r)%nat ->
  (0 <= accuracy r)%Q /\ (accuracy r <= 1)%Q /\
  (frame_count r = 0%nat -> accuracy r = 0%Q).
Proof.
  intros H. unfold accuracy.
  destruct (Nat.ltb_spec 0 (frame_count r)) as [Hpos|Hz].
  - assert (Hf : Z.pos (Pos.of_nat (frame_count r)) =
                 Z.of_nat (frame_count r)).
    { rewrite <- positive_nat_Z, Nat2Pos.id by lia. reflexivity. }
    unfold Qle. simpl. rewrite Hf. split; [lia|]. split; [lia|]. lia.
  - split; [apply Qle_refl|]. split; [discriminate|reflexivity].
Qed.

(** X17: a run of the loop counts at most one frame per pass and at most
    one success per frame counted, so that the accuracy [main] reports
    at the end, successes over frames, lies between 0 and 1; with no
    frame counted it is 0 and nothing is divided. *)
Theorem X17_counters_and_accuracy cfg mid headless ticks r r' e :
  main_loop cfg mid headless ticks r = (r', e) ->
  (success_count r <= frame_count r)%nat ->
  (success_count r' <= frame_count r')%nat /\
  (frame_count r' <= frame_count r + length ticks)%nat /\
  (0 <= accuracy r')%Q /\ (accuracy r' <= 1)%Q /\
  (frame_count r' = 0%nat -> accuracy r' = 0%Q).
Proof.
  intros H Hinit.
  destruct (main_loop_effect _ _ _ _ _ _ _ H)
    as (us & _ & Hs & Hf & Hus & Hlen & _).
  assert (Hle : (success_count r' <= frame_count r')%nat) by lia.
  split; [exact Hle|]. split; [lia|]. apply accuracy_bounds, Hle.
Qed.

Lemma three_ticks_run :
  main_loop (test_config (0, 0, 2, 2)%Z) (lit "SLOT-1") true three_ticks
    fresh_run = (three_ticks_end, SourceFailed).
Proof. vm_compute. reflexivity. Defined.

Lemma X17_counters_and_accuracy_witness :
  main_loop (test_config (0, 0, 2, 2)%Z) (lit "SLOT-1") true three_ticks
    fresh_run = (three_ticks_end, SourceFailed) /\
  (success_count fresh_run <= frame_count fresh_run)%nat /\
  (success_count three_ticks_end <= frame_count three_ticks_end)%nat /\
  (frame_count three_ticks_end <=
   frame_count fresh_run + length three_ticks)%nat /\
  (0 <= accuracy three_ticks_end)%Q /\ (accuracy three_ticks_end <= 1)%Q /\
  (frame_count three_ticks_end = 0%nat -> accuracy three_ticks_end = 0%Q).
Proof.
  split; [exact three_ticks_run|]. split; [simpl; lia|].
  exact (X17_counters_and_accuracy _ _ _ _ _ _ _ three_ticks_run
           (Nat.le_refl 0)).
Defined.

(** X18: over a run of the loop, [update_prize] is called once per
    success counted, each time for the machine the run was started for,
    whether or not the driver fails. *)
Theorem X18_one_upsert_per_success cfg mid headless ticks r r' e :
  main_loop cfg mid headless ticks r = (r', e) ->
  exists us,
    upserts (store r') = upserts (store r) ++ us /\
    (success_count r' = success_count r + length us)%nat /\
    Forall (fun u => up_machine_id u = mid) us.
Proof.
  intros H.
  destruct (main_loop_effect _ _ _ _ _ _ _ H)
    as (us & Hu & Hs & _ & _ & _ & Hm & _).
  exists us. auto.
Qed.

Lemma X18_one_upsert_per_success_witness :
  main_loop (test_config (0, 0, 2, 2)%Z) (lit "SLOT-1") true three_ticks
    fresh_run = (three_ticks_end, SourceFailed) /\
  exists us,
    upserts (store three_ticks_end) = upserts (store fresh_run) ++ us /\
    (success_count three_ticks_end =
     success_count fresh_run + length us)%nat /\
    Forall (fun u => up_machine_id u = lit "SLOT-1") us.
Proof.
  split; [exact three_ticks_run|].
  exact (X18_one_upsert_per_success _ _ _ _ _ _ _ three_ticks_run).
Defined.

(** X19: a run of the loop leaves the rows of all other machines as they
    were. *)
Theorem X19_other_machines_untouched cfg mid headless ticks r r' e k :
  main_loop cfg mid headless ticks r = (r', e) ->
  k <> mid ->
  table (store r') !! k = table (store r) !! k.
Proof.
  intros H Hk.
  destruct (main_loop_effect _ _ _ _ _ _ _ H) as (us & _ & _ & _ & _ & _ & _ & Ht).
  apply Ht, Hk.
Qed.

Lemma X19_other_machines_untouched_witness :
  main_loop (test_config (0, 0, 2, 2)%Z) (lit "SLOT-1") true three_ticks
    fresh_run = (three_ticks_end, SourceFailed) /\
  lit "SLOT-2" <> lit "SLOT-1" /\
  table (store three_ticks_end) !! lit "SLOT-2" =
  table (store fresh_run) !! lit "SLOT-2".
Proof.
  assert (H : lit "SLOT-2" <> lit "SLOT-1") by discriminate.
  split; [exact three_ticks_run|]. split; [exact H|].
  exact (X19_other_machines_untouched _ _ _ _ _ _ _ (lit "SLOT-2")
           three_ticks_run H).
Defined.

Lemma calm_iteration cfg mid headless t r frame :
  calm cfg headless t -> tick_frame t = Some frame ->
  exists r1 d,
    main_iteration (tick_runtime t) cfg mid
      {| frame_count := frame_count r; success_count := success_count r;
         store := at_tick t (store r) |} frame = (r1, Returns d) /\
    frame_count r1 = S (frame_count r).
Proof.
  intros (_ & Hrec & Hfault & _) Hframe. unfold main_iteration.
  destruct (process_frame_cases (tick_runtime t) cfg frame mid)
    as [(result & _ & Hp)|[(msg & _ & Hp)|(msg & Hr & _)]];
    [| |destruct (Hrec _ _ Hr)];
    rewrite Hp; unfold record_result;
    match goal with
    | |- context [bool_decide (status ?d = SUCCESS)] =>
        destruct (bool_decide (status d = SUCCESS)) eqn:Hs
    end; simpl; try (eexists _, _; split; reflexivity).
  unfold update_database. rewrite Hs. simpl.
  destruct (prize_amount _) as [a|];
    [|eexists _, _; split; reflexivity].
  unfold update_prize. simpl.
  destruct (tick_fault t) as [[m|m]|] eqn:Hf; simpl;
    try (eexists _, _; split; reflexivity).
  destruct (Hfault m eq_refl).
Qed.

(** X20: as long as the source delivers frames, nothing raises outside
    the [Exception] class and, with the display on, [q] is not pressed,
    the loop goes on: every frame is processed and counted, frames whose
    processing or whose database call fails included, and the loop ends
    when the source has no more frame. *)
Theorem X20_loop_survives_errors cfg mid headless ticks r :
  Forall (calm cfg headless) ticks ->
  exists r',
    main_loop cfg mid headless ticks r = (r', SourceFailed) /\
    frame_count r' = (frame_count r + length ticks)%nat.
Proof.
  intros H. revert r. induction H as [|t ts Ht _ IH]; intros r; simpl.
  - exists r. split; [reflexivity|lia].
  - pose proof Ht as (Hframe & _ & _ & Hkey).
    destruct Hframe as [frame Hframe]. rewrite Hframe.
    destruct (calm_iteration cfg mid headless t r frame Ht Hframe)
      as (r1 & d & -> & Hcount).
    destruct (IH r1) as (r' & Hrun & Hr').
    exists r'. split; [|lia].
    destruct Hkey as [->|[-> ->]]; [exact Hrun|].
    destruct headless; exact Hrun.
Qed.

Lemma X20_loop_survives_errors_witness :
  Forall (calm (test_config (0, 0, 2, 2)%Z) true) three_ticks /\
  exists r',
    main_loop (test_config (0, 0, 2, 2)%Z) (lit "SLOT-1") true three_ticks
      fresh_run = (r', SourceFailed) /\
    frame_count r' = (frame_count fresh_run + length three_ticks)%nat.
Proof.
  assert (H : Forall (calm (test_config (0, 0, 2, 2)%Z) true) three_ticks).
  { repeat constructor; try (eexists; reflexivity); discriminate. }
  split; [exact H|].
  exact (X20_loop_survives_errors (test_config (0, 0, 2, 2)%Z)
           (lit "SLOT-1") true three_ticks fresh_run H).
Defined.

(** X21: a pass whose frame yields a prize amount, with a database
    driver that does not fail, ends with the machine's row holding the
    amount, confidence and time of the result; [update_prize] has been
    called once, with those values, and the frame is counted as a
    success. *)
Theorem X21_success_is_persisted rt cfg mid r frame d a :
  process_frame rt cfg frame mid = Returns d ->
  prize_amount d = Some a ->
  fault (store r) = None ->
  exists r',
    main_iteration rt cfg mid r frame = (r', Returns d) /\
    table (store r') !! mid =
      Some {| row_prize_amount := a; row_confidence := confidence d;
              row_detected_at := timestamp d;
              row_updated_at :=
                match table (store r) !! mid with
                | Some _ => Some (current_timestamp (store r))
                | None => None
                end |} /\
    upserts (store r') = upserts (store r) ++ [upsert_of d a] /\
    frame_count r' = S (frame_count r) /\
    success_count r' = S (success_count r).
Proof.
  intros Hp Ha Hf.
  destruct (process_frame_success_amount _ _ _ _ _ Hp) as (Hmid & _ & Hs).
  specialize (Hs a Ha).
  destruct (update_database_success (store r) d a Hs Ha) as [Hdb Hret].
  specialize (Hret Hf).
  unfold main_iteration. rewrite Hp. unfold record_result.
  rewrite (bool_decide_eq_true_2 _ Hs). simpl.
  destruct (update_database (store r) d) as [db' o] eqn:Hu.
  simpl in Hdb, Hret. subst db' o. eexists. split; [reflexivity|]. simpl.
  destruct (update_prize_lookup_row (store r) (upsert_of d a) Hf)
    as [_ Hrow].
  destruct (update_prize_effect (store r) (upsert_of d a)) as [Hups _].
  simpl in Hrow. rewrite Hmid in Hrow.
  split; [exact Hrow|]. split; [exact Hups|]. split; reflexivity.
Qed.

Lemma X21_success_is_persisted_witness :
  process_frame (quiet_runtime prize_lines) (test_config (0, 0, 2, 2)%Z)
    (test_frame 2 2) (lit "SLOT-1") =
  Returns {| machine_id := lit "SLOT-1"; timestamp := 1700000000 # 1;
             prize_amount := Some 75%Q; confidence := 99 # 100;
             raw_text := fmap (M:=list) entry_of prize_lines;
             status := SUCCESS |} /\
  Some 75%Q = Some 75%Q /\
  fault (store fresh_run) = None /\
  exists r',
    main_iteration (quiet_runtime prize_lines) (test_config (0, 0, 2, 2)%Z)
      (lit "SLOT-1") fresh_run (test_frame 2 2) =
    (r', Returns {| machine_id := lit "SLOT-1";
                    timestamp := 1700000000 # 1;
                    prize_amount := Some 75%Q; confidence := 99 # 100;
                    raw_text := fmap (M:=list) entry_of prize_lines;
                    status := SUCCESS |}) /\
    table (store r') !! lit "SLOT-1" =
      Some {| row_prize_amount := 75; row_confidence := 99 # 100;
              row_detected_at := 1700000000 # 1;
              row_updated_at :=
                match table (store fresh_run) !! lit "SLOT-1" with
                | Some _ => Some (current_timestamp (store fresh_run))
                | None => None
                end |} /\
    upserts (store r') =
      upserts (store fresh_run) ++
      [upsert_of {| machine_id := lit "SLOT-1";
                    timestamp := 1700000000 # 1;
                    prize_amount := Some 75%Q; confidence := 99 # 100;
                    raw_text := fmap (M:=list) entry_of prize_lines;
                    status := SUCCESS |} 75] /\
    frame_count r' = S (frame_count fresh_run) /\
    success_count r' = S (success_count fresh_run).
Proof.
  split; [reflexivity|]. split; [reflexivity|]. split; [reflexivity|].
  exact (X21_success_is_persisted (quiet_runtime prize_lines)
           (test_config (0, 0, 2, 2)%Z) (lit "SLOT-1") fresh_run
           (test_frame 2 2)
           {| machine_id := lit "SLOT-1"; timestamp := 1700000000 # 1;
              prize_amount := Some 75%Q; confidence := 99 # 100;
              raw_text := fmap (M:=list) entry_of prize_lines;
              status := SUCCESS |}
           75%Q eq_refl eq_refl eq_refl).
Defined.

(** ** Rendering an amount and parsing it again *)

Lemma rmatch_class {A : Type} p c s cap
    (k : pystr -> option pystr -> option A) :
  rmatch (Class p) (c :: s) cap k = if p c then k s cap else None.
Proof. reflexivity. Qed.

Lemma rmatch_repeat_succ {A : Type} r lo n s cap
    (k : pystr -> option pystr -> option A) :
  rmatch (Repeat r lo (Some (S n))) s cap k =
  match rmatch r s cap
          (fun s1 cap1 =>
             if (length s1 <? length s)%nat
             then rmatch (Repeat r (Nat.pred lo) (Some n)) s1 cap1 k
             else None) with
  | Some x => Some x
  | None => match lo with O => k s cap | S _ => None end
  end.
Proof. reflexivity. Qed.

Lemma rmatch_repeat_unbounded {A : Type} r lo s cap
    (k : pystr -> option pystr -> option A) :
  rmatch (Repeat r lo None) s cap k =
  rmatch (Repeat r lo (Some (length s))) s cap k.
Proof. reflexivity. Qed.

(** A bounded repetition of a class takes all the characters of the class
    in front of it, when it may take no more or none follows, and when
    the rest of the pattern then succeeds. *)
Lemma rmatch_greedy {A : Type} p ds : forall n lo rest cap
    (k : pystr -> option pystr -> option A),
  Forall (fun c => p c = true) ds ->
  (lo <= length ds <= n)%nat ->
  (length ds = n \/
   match rest with [] => True | c :: _ => p c = false end) ->
  k rest cap <> None ->
  rmatch (Repeat (Class p) lo (Some n)) (ds ++ rest) cap k = k rest cap.
Proof.
  induction ds as [|d ds IH]; intros n lo rest cap k Hds Hlen Hend Hk.
  - simpl in Hlen. assert (lo = 0%nat) as -> by lia. simpl app.
    destruct n as [|n]; [reflexivity|].
    rewrite rmatch_repeat_succ.
    destruct rest as [|c rest]; [reflexivity|].
    rewrite rmatch_class.
    destruct Hend as [Hend|Hend]; [discriminate Hend|].
    rewrite Hend. reflexivity.
  - apply Forall_cons in Hds as [Hd Hds]. simpl in Hlen.
    destruct n as [|n]; [lia|].
    rewrite rmatch_repeat_succ. simpl app. rewrite rmatch_class, Hd.
    replace (length (ds ++ rest) <? length (d :: ds ++ rest))%nat
      with true by (symmetry; apply Nat.ltb_lt; simpl; lia).
    rewrite IH; [|exact Hds|lia| |exact Hk].
    + destruct (k rest cap); [reflexivity|contradiction].
    + destruct Hend as [Hend|Hend]; [left; simpl in Hend; lia|right; exact Hend].
Qed.

Lemma is_digit_not_currency c : is_digit c = true -> is_currency c = false.
Proof.
  intros H. unfold is_currency.
  repeat (apply orb_false_iff; split); apply N.eqb_neq; intros ->;
    vm_compute in H; discriminate.
Qed.

(** The first pattern on one to three digits, a period and two digits:
    the whole text is the match. *)
Lemma match_here_pattern1_plain ds d4 d5 :
  Forall (fun c => is_digit c = true) ds ->
  (1 <= length ds <= 3)%nat ->
  is_digit d4 = true -> is_digit d5 = true ->
  match_here pattern1 (ds ++ [PERIOD; d4; d5]) =
  Some (ds ++ [PERIOD; d4; d5], []).
Proof.
  intros Hds Hlen H4 H5.
  set (text := ds ++ [PERIOD; d4; d5]).
  set (k0 := fun (rest : pystr) (cap : option pystr) =>
               Some (default [] cap, rest)).
  set (kG := fun (s1 : pystr) (_ : option pystr) =>
               k0 s1 (Some (take (length text - length s1)%nat text))).
  assert (HkG : kG [] None = Some (text, [])).
  { unfold kG, k0. simpl. rewrite Nat.sub_0_r, take_ge by lia. reflexivity. }
  assert (Hcents : rmatch cents_part [PERIOD; d4; d5] None kG
                   = Some (text, [])).
  { unfold cents_part, opt. rewrite rmatch_repeat_succ, rmatch_seq.
    unfold chr at 1. rewrite rmatch_class.
    replace (PERIOD =? PERIOD) with true by reflexivity.
    unfold times.
    rewrite (rmatch_greedy is_digit [d4; d5] 2 2 [] None);
      [|repeat constructor; assumption|simpl; lia|left; reflexivity|].
    - simpl. exact HkG.
    - simpl. rewrite HkG. discriminate. }
  assert (Hstar : rmatch (star (Seq (chr COMMA) (times digit 3 3)))
                    [PERIOD; d4; d5] None
                    (fun s2 c2 => rmatch cents_part s2 c2 kG)
                  = Some (text, [])).
  { unfold star. rewrite rmatch_repeat_unbounded. simpl length.
    rewrite rmatch_repeat_succ, rmatch_seq. unfold chr at 1.
    rewrite rmatch_class.
    replace (COMMA =? PERIOD) with false by reflexivity. exact Hcents. }
  assert (Hgroup : rmatch (Group grouped) text None k0 = Some (text, [])).
  { rewrite rmatch_group. fold kG. unfold grouped. rewrite rmatch_seq.
    unfold text at 1. unfold times at 1.
    rewrite (rmatch_greedy is_digit ds 3 1 [PERIOD; d4; d5] None);
      [|exact Hds|lia|right; reflexivity|]; cbv beta.
    - rewrite rmatch_seq. exact Hstar.
    - rewrite rmatch_seq, Hstar. discriminate. }
  unfold match_here, pattern1. fold k0. rewrite rmatch_seq.
  unfold opt, currency.
  rewrite (rmatch_greedy is_currency [] 1 0 text None);
    [exact Hgroup|constructor|simpl; lia| |rewrite Hgroup; discriminate].
  right. unfold text. destruct ds as [|d ds]; [simpl in Hlen; lia|].
  apply Forall_cons in Hds as [Hd _]. simpl.
  apply is_digit_not_currency, Hd.
Qed.

Lemma findall_head r c s g rest :
  match_here r (c :: s) = Some (g, rest) ->
  exists gs, findall r (c :: s) = g :: gs.
Proof.
  intros H. unfold findall. cbn [findall_from]. rewrite H. eauto.
Qed.

Lemma digits_value_app ds : forall acc n d f,
  digits_value acc ds = Some n -> digit_value d = Some f ->
  digits_value acc (ds ++ [d]) = Some (10 * n + f).
Proof.
  induction ds as [|c ds IH]; simpl; intros acc n d f Hn Hd.
  - injection Hn as <-. rewrite Hd. reflexivity.
  - destruct (digit_value c); [|discriminate]. apply IH; assumption.
Qed.

(** [float] on digits, a period and two digits. *)
Lemma py_float_two_decimals ds d4 d5 n f1 f2 :
  ds <> [] -> Forall (fun c => is_digit c = true) ds ->
  digits_value 0 ds = Some n ->
  digit_value d4 = Some f1 -> digit_value d5 = Some f2 ->
  py_float (ds ++ [PERIOD; d4; d5]) =
  Some (Qred (Z.of_N (n * 100 + (10 * f1 + f2)) # 100)).
Proof.
  intros Hne Hds Hn H4 H5. unfold py_float.
  destruct (split_period_digits ds Hds) as [_ Hs]. rewrite Hs.
  destruct ds as [|d ds]; [contradiction|]. rewrite Hn. simpl.
  rewrite H4. simpl. rewrite H5. simpl.
  replace (10 * (0 + f1) + f2) with (10 * f1 + f2) by lia.
  reflexivity.
Qed.

(** What [float] returns is in lowest terms. *)
Lemma py_float_reduced s q : py_float s = Some q -> Qred q = q.
Proof.
  assert (Hz : forall z, Qred (inject_Z z) = inject_Z z).
  { intros z. unfold Qred, inject_Z. simpl.
    pose proof (Z.ggcd_gcd z 1) as Hg.
    pose proof (Z.ggcd_correct_divisors z 1) as Hd.
    destruct (Z.ggcd z 1) as [g [aa bb]]. simpl in Hg, Hd.
    rewrite Z.gcd_1_r in Hg. subst g. destruct Hd as [Ha Hb].
    f_equal; [lia|]. assert (bb = 1%Z) as -> by lia. reflexivity. }
  assert (Hr : forall x, Qred (Qred x) = Qred x).
  { intros x. apply Qred_complete, Qred_correct. }
  unfold py_float. destruct (split_period s) as [ip [f|]].
  - destruct ip as [|c ip]; destruct f as [|c' f]; try discriminate;
      intros H; apply bind_Some in H as (n & _ & H);
      apply bind_Some in H as (m & _ & H); injection H as <-; apply Hr.
  - destruct ip as [|c ip]; [discriminate|].
    intros H. apply bind_Some in H as (n & _ & H). injection H as <-.
    apply Hz.
Qed.

Lemma parse_prize_amount_reduced text a :
  parse_prize_amount text = Some a -> Qred a = a.
Proof.
  unfold parse_prize_amount. intros H.
  destruct (first_amount_source _ _ _ H) as (_ & p & _ & _ & Hp & _).
  unfold try_pattern in Hp.
  destruct (findall p _) as [|m0 ms]; [discriminate|].
  destruct (py_float (replace_char COMMA m0)) as [q|] eqn:Hq;
    [|discriminate].
  destruct (in_prize_range q); [|discriminate].
  injection Hp as <-. eapply py_float_reduced, Hq.
Qed.

(** The ASCII digit of a value below ten. *)
Lemma digit_value_ascii k : k < 10 -> digit_value (48 + k) = Some k.
Proof.
  intros H. unfold digit_value, nd_zeros, digit_in.
  replace (48 <=? 48 + k) with true by (symmetry; apply N.leb_le; lia).
  replace (48 + k <? 48 + 10) with true by (symmetry; apply N.ltb_lt; lia).
  simpl. f_equal. lia.
Qed.

Lemma str_of_N_small n :
  n < 1000 ->
  Forall (fun c => is_digit c = true) (str_of_N n) /\
  (1 <= length (str_of_N n) <= 3)%nat /\
  digits_value 0 (str_of_N n) = Some n.
Proof.
  intros Hn.
  assert (Hall : forallb small_numeral_ok
                   (List.map N.of_nat (List.seq 0 1000)) = true)
    by (vm_compute; reflexivity).
  rewrite List.forallb_forall in Hall.
  assert (Hok : small_numeral_ok n = true).
  { apply Hall. rewrite <- (N2Nat.id n). apply List.in_map.
    apply List.in_seq. lia. }
  unfold small_numeral_ok in Hok.
  apply andb_true_iff in Hok as [Hok Hval].
  apply andb_true_iff in Hok as [Hok Hhi].
  apply andb_true_iff in Hok as [Hdig Hlo].
  split; [|split].
  - apply Forall_forall. intros c Hc.
    rewrite List.forallb_forall in Hdig. apply Hdig.
    apply list_elem_of_In, Hc.
  - apply Nat.leb_le in Hlo, Hhi. lia.
  - destruct (digits_value 0 (str_of_N n)) as [m|]; [|discriminate].
    apply N.eqb_eq in Hval. congruence.
Qed.

Lemma Qfloor_hundredths a c :
  (a == c # 100)%Q -> Qfloor (a * 100 + (1 # 2)) = c.
Proof.
  intros H. rewrite H. unfold Qfloor, Qplus, Qmult. simpl.
  symmetry. apply (Z.div_unique _ _ _ 100); lia.
Qed.

Lemma sub_outside_id keep s :
  Forall (fun c => keep c = true) s -> sub_outside keep s = s.
Proof.
  induction 1 as [|c s Hc _ IH]; simpl; [reflexivity|].
  rewrite Hc, IH. reflexivity.
Qed.

(** The parser on the two-decimal rendering of a number of hundredths
    below 100,000. *)
Lemma first_candidate_plain cents :
  cents < 100000 ->
  exists gs,
    sub_outside amount_char
      (str_of_N (cents / 100) ++ [PERIOD] ++
       [48 + (cents mod 100) / 10; 48 + cents mod 10]) =
    str_of_N (cents / 100) ++ [PERIOD] ++
      [48 + (cents mod 100) / 10; 48 + cents mod 10] /\
    findall pattern1
      (str_of_N (cents / 100) ++ [PERIOD] ++
       [48 + (cents mod 100) / 10; 48 + cents mod 10]) =
    (str_of_N (cents / 100) ++ [PERIOD] ++
       [48 + (cents mod 100) / 10; 48 + cents mod 10]) :: gs /\
    py_float (replace_char COMMA
                (str_of_N (cents / 100) ++ [PERIOD] ++
                 [48 + (cents mod 100) / 10; 48 + cents mod 10])) =
    Some (Qred (Z.of_N cents # 100)).
Proof.
  intros Hc.
  assert (Hn : cents / 100 < 1000).
  { apply N.Div0.div_lt_upper_bound. lia. }
  assert (Hf1 : (cents mod 100) / 10 < 10).
  { apply N.Div0.div_lt_upper_bound.
    pose proof (N.mod_lt cents 100). lia. }
  assert (Hf2 : cents mod 10 < 10) by (apply N.mod_lt; lia).
  assert (Hsum : cents / 100 * 100 +
                 (10 * ((cents mod 100) / 10) + cents mod 10) = cents).
  { clear. zify. Z.to_euclidean_division_equations. lia. }
  destruct (str_of_N_small _ Hn) as (Hds & Hlen & Hval).
  pose proof (digit_value_ascii _ Hf1) as H4.
  pose proof (digit_value_ascii _ Hf2) as H5.
  assert (G4 : is_digit (48 + (cents mod 100) / 10) = true)
    by (unfold is_digit; rewrite H4; reflexivity).
  assert (G5 : is_digit (48 + cents mod 10) = true)
    by (unfold is_digit; rewrite H5; reflexivity).
  set (ds := str_of_N (cents / 100)) in *.
  set (d4 := 48 + (cents mod 100) / 10) in *.
  set (d5 := 48 + cents mod 10) in *.
  change (ds ++ [PERIOD] ++ [d4; d5]) with (ds ++ [PERIOD; d4; d5]).
  pose proof (match_here_pattern1_plain ds d4 d5 Hds Hlen G4 G5) as Hm.
  assert (Hne : ds <> []) by (destruct ds; [simpl in Hlen; lia|discriminate]).
  assert (Hhead : exists gs,
            findall pattern1 (ds ++ [PERIOD; d4; d5]) =
            (ds ++ [PERIOD; d4; d5]) :: gs).
  { destruct ds as [|c0 ds0]; [contradiction|].
    exact (findall_head _ _ _ _ _ Hm). }
  destruct Hhead as [gs Hgs]. exists gs.
  split; [|split; [exact Hgs|]].
  - apply sub_outside_id, Forall_app. split.
    + eapply Forall_impl; [exact Hds|]. intros c Hc'. unfold amount_char.
      rewrite Hc'. reflexivity.
    + unfold amount_char. repeat constructor; rewrite ?G4, ?G5; reflexivity.
  - rewrite replace_char_app, (replace_comma_digits ds Hds). simpl.
    destruct (is_digit_not_separator d4 G4) as [-> _].
    destruct (is_digit_not_separator d5 G5) as [-> _].
    rewrite (py_float_two_decimals ds d4 d5 _ _ _ Hne Hds Hval H4 H5).
    rewrite Hsum. reflexivity.
Qed.

(** X22: an amount below 1000 that the parser returned survives the
    rendering with two decimals that [main] displays: parsing the
    rendered text returns the same amount. *)
Theorem X22_render_reparse_below_1000 text a :
  parse_prize_amount text = Some a ->
  (a < 1000)%Q ->
  parse_prize_amount (format_2f a) = Some a.
Proof.
  intros H Hlt.
  destruct (parse_prize_amount_hundredths _ _ H) as (c & Hc & Hlo & _).
  pose proof (parse_prize_amount_in_range _ _ H) as Hr.
  pose proof (parse_prize_amount_reduced _ _ H) as Hred.
  assert (Hc' : (c < 100000)%Z).
  { rewrite Hc in Hlt. unfold Qlt in Hlt. simpl in Hlt. lia. }
  unfold format_2f. rewrite (Qfloor_hundredths a c Hc).
  destruct (first_candidate_plain (Z.to_N c) ltac:(lia))
    as (gs & Hclean & Hfind & Hfloat).
  unfold parse_prize_amount. rewrite Hclean.
  unfold patterns. cbn [first_amount]. unfold try_pattern at 1.
  rewrite Hfind, Hfloat.
  assert (Hq : Qred (Z.of_N (Z.to_N c) # 100) = a).
  { rewrite Z2N.id by lia. rewrite <- Hred.
    apply Qred_complete. symmetry. exact Hc. }
  rewrite Hq, Hr. reflexivity.
Qed.

Lemma X22_render_reparse_below_1000_witness :
  parse_prize_amount (lit "WIN $12.50") = Some (25 # 2) /\
  (25 # 2 < 1000)%Q /\
  parse_prize_amount (format_2f (25 # 2)) = Some (25 # 2).
Proof.
  assert (H : (25 # 2 < 1000)%Q) by reflexivity.
  split; [reflexivity|]. split; [exact H|].
  exact (X22_render_reparse_below_1000 (lit "WIN $12.50") (25 # 2)
           eq_refl H).
Defined.
